(** * huizen-zoeker: the entity store, the change detector and the criteria filter

    A shallow embedding of [property_db.py] (class [PropertyDatabase]),
    [change_detector.py] (class [ChangeDetector]) and [property_filter.py]
    (class [PropertyFilter]), of [BaseScraper.standardize_listing]
    ([base_scraper.py]) and of the loop of [run_scraper_job] ([main.py]),
    with the properties of the state-tracking engine proved about it.

    Modelling conventions.
    - A cell of the SQLite file and an attribute of a scraped listing is a
      [scalar]: [None], an [int] or a [str].  Listings are Python
      dictionaries; the engine itself adds one list-valued entry, the diff
      list stored under ['changes'].  Strings are byte strings, and
      [str.lower] changes the ASCII letters only.
    - The two tables are lists of rows in rowid order.
    - [datetime.now().isoformat()] is an input of every store operation.
    - A [sqlite3.Error] raised by the persistence layer is an input too:
      the flag [fault] of a store operation says that its first statement
      raised (a locked file, a full disk, more bound variables than the
      library accepts).  All statements of one operation run in one
      transaction that is committed at the end, so a fault, and any Python
      exception, leaves the tables as they were.  A failure of
      [sqlite3.connect] itself is not modelled.
    - Constraint violations are modelled where the engine can meet them:
      [NOT NULL] on the columns it writes.
    - What [scraper.get_listings] gives (listing objects, or an
      exception) is an input of the scraper job; the job is modelled as it
      runs without notifier.
    - SQLite's column affinity and its 64-bit integer range are not
      modelled: a value bound to a statement is stored as it is, an
      identifier is compared as the Python value it is, and an integer
      outside the 64-bit range, for which the library raises
      [OverflowError], is bound like any other.  That is exact for listings
      that are [well_typed]; the theorems that relate a write to a later
      read or that compare identifiers assume well-typed listings or text
      identifiers as they need them. *)

From Stdlib Require Import ZArith String Ascii List Bool Lia DecimalString.
From stdpp Require Import base option gmap strings list fin_maps functions.

Open Scope string_scope.
Open Scope list_scope.
Open Scope Z_scope.

(** ** Python values *)

Inductive scalar :=
  | SNone
  | SInt (n : Z)
  | SStr (s : string).

#[global] Instance scalar_eq_dec : EqDecision scalar.
Proof. solve_decision. Defined.

(** [str(v)] *)
Definition py_str (v : scalar) : string :=
  match v with
  | SNone => "None"
  | SInt n => NilZero.string_of_int (Z.to_int n)
  | SStr s => s
  end.

(** One element of the diff list: [{'field': .., 'old_value': .., 'new_value': ..}] *)
Record change := mk_change {
  field : string;
  old_value : scalar;
  new_value : scalar
}.

#[global] Instance change_eq_dec : EqDecision change.
Proof. solve_decision. Defined.

(** A listing dictionary: scalar entries, and the entry ['changes'] when
    the detector has attached one. *)
Record dict := mk_dict {
  scalars : gmap string scalar;
  changes_entry : option (list change)
}.

(** Python exceptions that escape the engine. *)
Inductive exn :=
  | KeyError (key : string)
  | TypeError
  | AttributeError.

Inductive outcome (A : Type) :=
  | Ok (a : A)
  | Raise (e : exn).
Arguments Ok {A} a.
Arguments Raise {A} e.

#[global] Instance outcome_ret : MRet outcome := λ A a, Ok a.
#[global] Instance outcome_bind : MBind outcome := λ A B k m,
  match m with
  | Ok a => k a
  | Raise e => Raise e
  end.

(** [d[key]] *)
Definition getitem (d : dict) (key : string) : outcome scalar :=
  match scalars d !! key with
  | Some v => Ok v
  | None => Raise (KeyError key)
  end.

(** [d.get(key, default)] *)
Definition get (d : dict) (key : string) (default : scalar) : scalar :=
  match scalars d !! key with
  | Some v => v
  | None => default
  end.

(** [d[key] = v] for a scalar [v] *)
Definition setitem (d : dict) (key : string) (v : scalar) : dict :=
  mk_dict (<[key := v]> (scalars d)) (changes_entry d).

(** [d['changes'] = cs] *)
Definition set_changes (d : dict) (cs : list change) : dict :=
  mk_dict (delete "changes" (scalars d)) (Some cs).

(** ** The tables of [_init_db] *)

Record property_row := mk_row {
  r_id : scalar;              (* TEXT PRIMARY KEY *)
  r_address : scalar;         (* TEXT NOT NULL *)
  r_city : scalar;            (* TEXT NOT NULL *)
  r_price : scalar;           (* INTEGER NOT NULL *)
  r_area : scalar;            (* INTEGER *)
  r_rooms : scalar;           (* INTEGER *)
  r_property_type : scalar;   (* TEXT *)
  r_url : scalar;             (* TEXT NOT NULL *)
  r_source : scalar;          (* TEXT NOT NULL *)
  r_first_seen : string;
  r_last_seen : string;
  r_last_updated : string;
  r_extra_data : dict;        (* the mapping that the JSON text encodes *)
  r_active : bool             (* INTEGER DEFAULT 1 *)
}.

Record history_row := mk_history {
  h_property_id : scalar;
  h_change_type : string;
  h_change_date : string;
  h_old_value : option string;
  h_new_value : string
}.

Record database := mk_db {
  properties : list property_row;
  property_history : list history_row
}.

Definition empty_db : database := mk_db [] [].

(** SQL comparison [a = b]: never true when a side is NULL. *)
Definition sql_eq (a b : scalar) : bool :=
  match a, b with
  | SNone, _ | _, SNone => false
  | _, _ => bool_decide (a = b)
  end.

(** SQL [x NOT IN (l)]: true only when [x] is not NULL, equals no element
    and no element is NULL. *)
Definition sql_not_in (x : scalar) (l : list scalar) : bool :=
  match x with
  | SNone => false
  | _ => negb (existsb (λ e, bool_decide (e = x) || bool_decide (e = SNone)) l)
  end.

(** [SELECT * FROM properties WHERE id = ?] followed by [fetchone()] *)
Definition select_by_id (db : database) (id : scalar) : option property_row :=
  List.find (λ r, sql_eq (r_id r) id) (properties db).

(** [UPDATE properties SET .. WHERE id = ?] *)
Definition update_where_id (id : scalar) (f : property_row → property_row)
    (rows : list property_row) : list property_row :=
  map (λ r, if sql_eq (r_id r) id then f r else r) rows.

(** [dict(zip(columns, row))].  The raw JSON text of column [extra_data]
    is left out of the view: the engine reads it only through
    [json.loads], which [r_extra_data] already is. *)
Definition row_columns (r : property_row) : gmap string scalar :=
  list_to_map
    [ ("id", r_id r); ("address", r_address r); ("city", r_city r);
      ("price", r_price r); ("area", r_area r); ("rooms", r_rooms r);
      ("property_type", r_property_type r); ("url", r_url r);
      ("source", r_source r); ("first_seen", SStr (r_first_seen r));
      ("last_seen", SStr (r_last_seen r));
      ("last_updated", SStr (r_last_updated r));
      ("active", SInt (if r_active r then 1 else 0)) ].

(** The row as a flat dictionary, the entries of [extra_data] written over
    the columns ([existing_data[key] = value], [result.update(extra_data)]). *)
Definition existing_data (r : property_row) : dict :=
  mk_dict (scalars (r_extra_data r) ∪ row_columns r)
          (changes_entry (r_extra_data r)).

Definition core_fields : list string :=
  ["price"; "area"; "rooms"; "property_type"; "address"; "city"].

Definition table_keys : list string :=
  ["id"; "address"; "city"; "price"; "area"; "rooms"; "property_type"; "url";
   "source"; "first_seen"; "last_seen"; "last_updated"; "active"].

(** [{k: v for k, v in property_data.items() if k not in [...]}] *)
Definition extra_data_of (property_data : dict) : dict :=
  mk_dict (filter (λ kv, kv.1 ∉ table_keys) (scalars property_data))
          (changes_entry property_data).

(** One turn of the loop over [core_fields]. *)
Definition field_change (existing property_data : dict) (f : string)
    : option change :=
  match scalars property_data !! f, scalars existing !! f with
  | Some new, Some old =>
      if bool_decide (old ≠ new) then Some (mk_change f old new) else None
  | _, _ => None
  end.

Definition core_changes (existing property_data : dict) : list change :=
  omap (field_change existing property_data) core_fields.

(** The history row written for one change. *)
Definition changed_row (now : string) (id : scalar) (c : change) : history_row :=
  mk_history id ("changed_" +:+ field c) now
             (Some (py_str (old_value c))) (py_str (new_value c)).

Definition new_property_row (now : string) (id address city : scalar)
    : history_row :=
  mk_history id "new_property" now None
             ("New property: " +:+ py_str address +:+ ", " +:+ py_str city).

Definition is_null (v : scalar) : bool := bool_decide (v = SNone).

(** ** [PropertyDatabase.add_or_update_property] *)

(** [SET address = ?, city = ?, price = ?, area = ?, rooms = ?,
    property_type = ?, url = ?, last_seen = ?, last_updated = ?,
    extra_data = ?, active = 1] *)
Definition set_all_fields (now : string)
    (address city price area rooms property_type url : scalar)
    (extra_data : dict) (r : property_row) : property_row :=
  mk_row (r_id r) address city price area rooms property_type url
         (r_source r) (r_first_seen r) now now extra_data true.

(** [SET last_seen = ?, active = 1] *)
Definition set_last_seen (now : string) (r : property_row) : property_row :=
  mk_row (r_id r) (r_address r) (r_city r) (r_price r) (r_area r)
         (r_rooms r) (r_property_type r) (r_url r) (r_source r)
         (r_first_seen r) now (r_last_updated r) (r_extra_data r) true.

(** The parameter [property_data['id']] of the [SELECT] is evaluated before
    the statement runs, so a missing [id] is met before a fault is.  The
    parameters of the [UPDATE] and of the [INSERT] are evaluated, in the
    order of the tuple, before the statement checks [NOT NULL]; a row of
    [property_history] needs a [property_id] that is not NULL. *)
Definition add_or_update_property (now : string) (fault : bool)
    (db : database) (property_data : dict)
    : outcome (string * list change) * database :=
  match getitem property_data "id" with
  | Raise e => (Raise e, db)
  | Ok id =>
    if fault then (Ok ("error", []), db) else
    match select_by_id db id with
    | Some existing_property =>
      let changes := core_changes (existing_data existing_property) property_data in
      match changes with
      | _ :: _ =>
        let extra_data := extra_data_of property_data in
        let params :=
          address ← getitem property_data "address";
          city ← getitem property_data "city";
          price ← getitem property_data "price";
          url ← getitem property_data "url";
          Ok (address, city, price, url) in
        match params with
        | Raise e => (Raise e, db)
        | Ok (address, city, price, url) =>
          if is_null address || is_null city || is_null price || is_null url
          then (Ok ("error", []), db)
          else
            let area := get property_data "area" (SInt 0) in
            let rooms := get property_data "rooms" (SInt 0) in
            let property_type := get property_data "property_type" (SStr "Onbekend") in
            (Ok ("updated", changes),
             mk_db (update_where_id id
                      (set_all_fields now address city price area rooms
                                      property_type url extra_data)
                      (properties db))
                   (property_history db ++ map (changed_row now id) changes))
        end
      | [] =>
        (Ok ("unchanged", []),
         mk_db (update_where_id id (set_last_seen now) (properties db))
               (property_history db))
      end
    | None =>
      let extra_data := extra_data_of property_data in
      let params :=
        address ← getitem property_data "address";
        city ← getitem property_data "city";
        price ← getitem property_data "price";
        url ← getitem property_data "url";
        source ← getitem property_data "source";
        Ok (address, city, price, url, source) in
      match params with
      | Raise e => (Raise e, db)
      | Ok (address, city, price, url, source) =>
        if is_null address || is_null city || is_null price || is_null url
           || is_null source || is_null id
        then (Ok ("error", []), db)
        else
          let area := get property_data "area" (SInt 0) in
          let rooms := get property_data "rooms" (SInt 0) in
          let property_type := get property_data "property_type" (SStr "Onbekend") in
          (Ok ("new", []),
           mk_db (properties db ++
                    [mk_row id address city price area rooms property_type url
                            source now now now extra_data true])
                 (property_history db ++ [new_property_row now id address city]))
      end
    end
  end.

(** ** [PropertyDatabase.mark_inactive_properties] *)

(** [SET active = 0, last_updated = ?] *)
Definition set_inactive (now : string) (r : property_row) : property_row :=
  mk_row (r_id r) (r_address r) (r_city r) (r_price r) (r_area r)
         (r_rooms r) (r_property_type r) (r_url r) (r_source r)
         (r_first_seen r) (r_last_seen r) now (r_extra_data r) false.

Definition inactive_row (now : string) (inactive_id : scalar) : history_row :=
  mk_history inactive_id "property_inactive" now None
             "Property no longer available".

(** The body of the loop over [inactive_ids]: one [UPDATE], one [INSERT]. *)
Definition deactivate (now : string) (db : database) (inactive_id : scalar)
    : database :=
  mk_db (update_where_id inactive_id (set_inactive now) (properties db))
        (property_history db ++ [inactive_row now inactive_id]).

(** The [WHERE] clause of the query.  With an empty [active_ids] the text
    of the query is [id NOT IN ('')]. *)
Definition missing (active_ids : list scalar) (source : scalar)
    (r : property_row) : bool :=
  let placeholders :=
    match active_ids with [] => [SStr ""] | _ :: _ => active_ids end in
  sql_eq (r_source r) source && r_active r && sql_not_in (r_id r) placeholders.

Definition mark_inactive_properties (now : string) (fault : bool)
    (db : database) (active_ids : list scalar) (source : scalar)
    : list scalar * database :=
  if fault then ([], db) else
  let inactive_ids :=
    map r_id (List.filter (missing active_ids source) (properties db)) in
  (inactive_ids, fold_left (deactivate now) inactive_ids db).

(** ** [PropertyDatabase.get_property] *)

Definition get_property (fault : bool) (db : database) (property_id : scalar)
    : option dict :=
  if fault then None else
  match select_by_id db property_id with
  | Some r => Some (existing_data r)
  | None => None
  end.

(** ** [ChangeDetector.process_listings] *)

(** Listings are objects on the Python heap, named by their address; the
    batch and the result lists hold references. *)
Definition loc := nat.

(** What the outside world decides: the time read by, and the fault met by,
    the [n]-th call of a store operation. *)
Record env := mk_env {
  clock : nat → string;
  faulty : nat → bool
}.

Record world := mk_world {
  heap : loc → dict;
  store : database;
  calls : nat
}.

(** [new_properties], [updated_properties], [active_ids] *)
Definition accumulators : Type := list loc * list loc * list scalar.

(** The body of the loop over [listings]. *)
Definition process_one (e : env) (source : string) (listing : loc)
    (acc : accumulators) (w : world) : outcome accumulators * world :=
  let '(new_properties, updated_properties, active_ids) := acc in
  let heap1 :=
    <[listing := setitem (heap w listing) "source" (SStr source)]> (heap w) in
  let '(r, db) :=
    add_or_update_property (clock e (calls w)) (faulty e (calls w))
                           (store w) (heap1 listing) in
  let w1 := mk_world heap1 db (S (calls w)) in
  match r with
  | Raise ex => (Raise ex, w1)
  | Ok (status, changes) =>
    match getitem (heap1 listing) "id" with
    | Raise ex => (Raise ex, w1)
    | Ok id =>
      let active_ids := active_ids ++ [id] in
      if bool_decide (status = "new") then
        (Ok (new_properties ++ [listing], updated_properties, active_ids), w1)
      else if bool_decide (status = "updated")
              && negb (bool_decide (changes = [])) then
        let heap2 := <[listing := set_changes (heap1 listing) changes]> heap1 in
        (Ok (new_properties, updated_properties ++ [listing], active_ids),
         mk_world heap2 db (S (calls w)))
      else
        (Ok (new_properties, updated_properties, active_ids), w1)
    end
  end.

(** The loop over [listings]: an exception leaves it. *)
Fixpoint ingest (e : env) (source : string) (listings : list loc)
    (acc : accumulators) (w : world) : outcome accumulators * world :=
  match listings with
  | [] => (Ok acc, w)
  | listing :: rest =>
    match process_one e source listing acc w with
    | (Ok acc1, w1) => ingest e source rest acc1 w1
    | (Raise ex, w1) => (Raise ex, w1)
    end
  end.

(** The loop over [removed_ids].  The dictionaries returned by
    [get_property] are fresh objects that only the result refers to. *)
Fixpoint fetch_removed (e : env) (removed_ids : list scalar)
    (removed_properties : list dict) (db : database) (n : nat)
    : list dict * nat :=
  match removed_ids with
  | [] => (removed_properties, n)
  | property_id :: rest =>
    match get_property (faulty e n) db property_id with
    | Some property_data =>
        fetch_removed e rest (removed_properties ++ [property_data]) db (S n)
    | None => fetch_removed e rest removed_properties db (S n)
    end
  end.

Record batch_result := mk_result {
  res_new : list loc;
  res_updated : list loc;
  res_removed : list dict
}.

Definition process_listings (e : env) (source : string) (listings : list loc)
    (w : world) : outcome batch_result * world :=
  match ingest e source listings ([], [], []) w with
  | (Raise ex, w1) => (Raise ex, w1)
  | (Ok (new_properties, updated_properties, active_ids), w1) =>
    let '(removed_ids, db) :=
      mark_inactive_properties (clock e (calls w1)) (faulty e (calls w1))
                               (store w1) active_ids (SStr source) in
    let '(removed_properties, n) :=
      fetch_removed e removed_ids [] db (S (calls w1)) in
    (Ok (mk_result new_properties updated_properties removed_properties),
     mk_world (heap w1) db n)
  end.

(** ** [PropertyFilter] *)

Record PropertyFilter := mk_filter {
  min_price : Z;
  max_price : Z;
  min_area : Z;
  cities : list string;
  property_types : list string
}.

(** [PropertyFilter.__init__]: an argument that is left out is [None] here. *)
Definition PropertyFilter_init (min_price max_price min_area : option Z)
    (cities property_types : option (list string)) : PropertyFilter :=
  mk_filter (default 0 min_price) (default 10000000 max_price)
            (default 0 min_area) (default [] cities) (default [] property_types).

(** [a < b] between two Python values: only integers are ordered with
    integers. *)
Definition py_lt (a : scalar) (b : Z) : outcome bool :=
  match a with
  | SInt n => Ok (n <? b)
  | _ => Raise TypeError
  end.

Definition py_gt (a : scalar) (b : Z) : outcome bool :=
  match a with
  | SInt n => Ok (n >? b)
  | _ => Raise TypeError
  end.

Definition lower_ascii (c : ascii) : ascii :=
  let n := nat_of_ascii c in
  if ((65 <=? n) && (n <=? 90))%nat then ascii_of_nat (n + 32) else c.

(** [s.lower()], on the ASCII letters. *)
Fixpoint lower (s : string) : string :=
  match s with
  | EmptyString => EmptyString
  | String c s' => String (lower_ascii c) (lower s')
  end.

(** [sub in s] for two strings. *)
Fixpoint str_in (sub s : string) : bool :=
  String.prefix sub s ||
  match s with
  | EmptyString => false
  | String _ s' => str_in sub s'
  end.

(** [any(c.lower() in city.lower() for c in self.cities)] *)
Definition city_matches (cities : list string) (city : scalar) : outcome bool :=
  match cities with
  | [] => Ok false
  | _ :: _ =>
    match city with
    | SStr s => Ok (existsb (λ c, str_in (lower c) (lower s)) cities)
    | _ => Raise AttributeError
    end
  end.

Definition matches (self : PropertyFilter) (property_data : dict) : outcome bool :=
  let price := get property_data "price" (SInt 0) in
  out_of_range ←
    (below ← py_lt price (min_price self);
     if below : bool then Ok true else py_gt price (max_price self));
  if out_of_range : bool then Ok false else
  let area := get property_data "area" (SInt 0) in
  small ← py_lt area (min_area self);
  if small : bool then Ok false else
  city_ok ←
    match cities self with
    | [] => Ok true
    | _ :: _ => city_matches (cities self) (get property_data "city" (SStr ""))
    end;
  if negb city_ok then Ok false else
  match property_types self with
  | [] => Ok true
  | _ :: _ =>
    let property_type := get property_data "property_type" (SStr "") in
    if bool_decide (property_type ∈ map SStr (property_types self))
    then Ok true else Ok false
  end.

(** [PropertyFilter.filter_properties]: the list comprehension
    [[p for p in properties if self.matches(p)]] over listing objects; an
    exception of [matches] leaves it. *)
Fixpoint PropertyFilter_filter_properties (self : PropertyFilter)
    (heap : loc → dict) (properties : list loc) : outcome (list loc) :=
  match properties with
  | [] => Ok []
  | p :: rest =>
    keep ← matches self (heap p);
    filtered ← PropertyFilter_filter_properties self heap rest;
    Ok (if keep : bool then p :: filtered else filtered)
  end.

(** The dictionaries of [to_dict] and [from_dict] hold integers and lists
    of strings. *)
Inductive setting :=
  | SetInt (n : Z)
  | SetList (l : list string).

Definition to_dict (self : PropertyFilter) : gmap string setting :=
  list_to_map
    [ ("min_price", SetInt (min_price self));
      ("max_price", SetInt (max_price self));
      ("min_area", SetInt (min_area self));
      ("cities", SetList (cities self));
      ("property_types", SetList (property_types self)) ].

(** [PropertyFilter.from_dict].  The constructor stores its arguments as
    they are; the record [PropertyFilter] holds integer bounds and lists of
    strings, so a dictionary with an entry of the other kind has no image
    here ([None]). *)
Definition from_dict (data : gmap string setting) : option PropertyFilter :=
  let int_entry key d :=
    match data !! key with
    | None => Some d
    | Some (SetInt n) => Some n
    | Some (SetList _) => None
    end in
  let list_entry key :=
    match data !! key with
    | None => Some []
    | Some (SetList l) => Some l
    | Some (SetInt _) => None
    end in
  min_price ← int_entry "min_price" 0;
  max_price ← int_entry "max_price" 10000000;
  min_area ← int_entry "min_area" 0;
  cities ← list_entry "cities";
  property_types ← list_entry "property_types";
  Some (PropertyFilter_init (Some min_price) (Some max_price) (Some min_area)
                            (Some cities) (Some property_types)).

(** ** [ChangeDetector.filter_properties] *)

(** [a < b] between two Python values: integers with integers, strings
    with strings (by code point, which is the order of their bytes). *)
Definition py_less (a b : scalar) : outcome bool :=
  match a, b with
  | SInt m, SInt n => Ok (m <? n)
  | SStr s, SStr t => Ok (String.ltb s t)
  | _, _ => Raise TypeError
  end.

(** One turn of the loop: [Ok false] stands for [continue].  The criteria
    are read from the dictionary [filters], a criterion whose key is absent
    is not evaluated. *)
Definition passes_filters (filters prop : dict) : outcome bool :=
  too_cheap ←
    match scalars filters !! "min_price" with
    | Some bound => price ← getitem prop "price"; py_less price bound
    | None => Ok false
    end;
  if too_cheap : bool then Ok false else
  too_dear ←
    match scalars filters !! "max_price" with
    | Some bound => price ← getitem prop "price"; py_less bound price
    | None => Ok false
    end;
  if too_dear : bool then Ok false else
  elsewhere ←
    match scalars filters !! "city" with
    | Some (SStr wanted) =>
      city ← getitem prop "city";
      match city with
      | SStr s => Ok (negb (str_in (lower wanted) (lower s)))
      | _ => Raise AttributeError
      end
    | Some _ => Raise AttributeError
    | None => Ok false
    end;
  if elsewhere : bool then Ok false else
  too_small ←
    match scalars filters !! "min_area" with
    | Some bound => py_less (get prop "area" (SInt 0)) bound
    | None => Ok false
    end;
  if too_small : bool then Ok false else
  match scalars filters !! "property_type" with
  | Some wanted =>
    Ok (bool_decide (wanted = get prop "property_type" (SStr "")))
  | None => Ok true
  end.

Fixpoint ChangeDetector_filter_properties (heap : loc → dict)
    (properties : list loc) (filters : dict) : outcome (list loc) :=
  match properties with
  | [] => Ok []
  | prop :: rest =>
    keep ← passes_filters filters (heap prop);
    filtered_properties ← ChangeDetector_filter_properties heap rest filters;
    Ok (if keep : bool then prop :: filtered_properties else filtered_properties)
  end.

(** ** [BaseScraper.standardize_listing] *)

(** [timestamp] is the text of [datetime.now().timestamp()] in the default
    identifier, [scraped_at] the text of [datetime.now().isoformat()].  The
    result is a new dictionary. *)
Definition standardize_listing (name timestamp scraped_at : string)
    (listing : dict) : dict :=
  let standard_listing : gmap string scalar :=
    list_to_map
      [ ("id", get listing "id" (SStr (name +:+ "_" +:+ timestamp)));
        ("address", get listing "address" (SStr "Onbekend adres"));
        ("city", get listing "city" (SStr "Onbekende plaats"));
        ("price", get listing "price" (SInt 0));
        ("area", get listing "area" (SInt 0));
        ("rooms", get listing "rooms" (SInt 0));
        ("property_type", get listing "property_type" (SStr "Onbekend"));
        ("url", get listing "url" (SStr ""));
        ("source", SStr name);
        ("scraped_at", SStr scraped_at) ] in
  mk_dict (standard_listing ∪ scalars listing) (changes_entry listing).

(** ** [run_scraper_job], called without notifier *)

(** The counters [total_new], [total_updated], [total_removed]. *)
Record totals := mk_totals {
  total_new : nat;
  total_updated : nat;
  total_removed : nat
}.

(** The body of the loop over the scrapers.  [listings] is what
    [scraper.get_listings] gave: the listing objects it returned, or the
    exception it raised.  [except Exception] ends the turn of a scraper
    whose [get_listings], filter or batch raises, and leaves the counters
    alone. *)
Definition run_scraper (e : env) (property_filter : PropertyFilter)
    (name : string) (listings : outcome (list loc)) (t : totals) (w : world)
    : totals * world :=
  match listings ≫= PropertyFilter_filter_properties property_filter (heap w) with
  | Raise _ => (t, w)
  | Ok filtered_listings =>
    match process_listings e name filtered_listings w with
    | (Raise _, w1) => (t, w1)
    | (Ok changes, w1) =>
      (mk_totals (total_new t + length (res_new changes))
                 (total_updated t + length (res_updated changes))
                 (total_removed t + length (res_removed changes)),
       w1)
    end
  end.

(** The loop over the scrapers, each with its name and what its
    [get_listings] gives. *)
Fixpoint run_scrapers (e : env) (property_filter : PropertyFilter)
    (scrapers : list (string * outcome (list loc))) (t : totals) (w : world)
    : totals * world :=
  match scrapers with
  | [] => (t, w)
  | (name, listings) :: rest =>
    let '(t1, w1) := run_scraper e property_filter name listings t w in
    run_scrapers e property_filter rest t1 w1
  end.

Definition run_scraper_job (e : env) (property_filter : PropertyFilter)
    (scrapers : list (string * outcome (list loc))) (w : world)
    : totals * world :=
  run_scrapers e property_filter scrapers (mk_totals 0 0 0) w.

(** ** Vocabulary of the statements *)

(** The keys that [add_or_update_property] reads with [property_data[..]]
    from a listing that [process_listings] has stamped with its source. *)
Definition mandatory_fields : list string :=
  ["id"; "address"; "city"; "price"; "url"].

(** The listing carries a non-empty diff list under ['changes']. *)
Definition has_changes (d : dict) : Prop :=
  ∃ cs, changes_entry d = Some cs ∧ cs ≠ [].

(** The listing carries [source] under ['source']. *)
Definition stamped (source : string) (d : dict) : Prop :=
  scalars d !! "source" = Some (SStr source).

(** The entity [id] has a row, and every row it has is active. *)
Definition present_and_active (id : scalar) (db : database) : Prop :=
  (∃ r, r ∈ properties db ∧ r_id r = id) ∧
  (∀ r, r ∈ properties db → r_id r = id → r_active r = true).

(** The optional core fields and what [property_data.get] gives for them. *)
Definition optional_defaults : list (string * scalar) :=
  [("area", SInt 0); ("rooms", SInt 0); ("property_type", SStr "Onbekend")].

(** A listing as the interface describes it: text under [id], [address],
    [city], [url] and [source], a 64-bit integer under [price], and under
    the optional keys, when they are there, [None] or a value of the
    column's type. *)
Definition is_text (v : scalar) : bool :=
  match v with SStr _ => true | _ => false end.

Definition is_int64 (v : scalar) : bool :=
  match v with
  | SInt n => (- 2 ^ 63 <=? n) && (n <? 2 ^ 63)
  | _ => false
  end.

Definition required (p : scalar → bool) (o : option scalar) : bool :=
  match o with Some v => p v | None => false end.

Definition optional (p : scalar → bool) (o : option scalar) : bool :=
  match o with None | Some SNone => true | Some v => p v end.

Definition well_typed (d : dict) : bool :=
  required is_text (scalars d !! "id")
  && required is_text (scalars d !! "address")
  && required is_text (scalars d !! "city")
  && required is_int64 (scalars d !! "price")
  && required is_text (scalars d !! "url")
  && required is_text (scalars d !! "source")
  && optional is_int64 (scalars d !! "area")
  && optional is_int64 (scalars d !! "rooms")
  && optional is_text (scalars d !! "property_type").

(** The criteria that [matches] tests, one by one. *)
Definition price_in_range (self : PropertyFilter) (price : Z) : Prop :=
  min_price self ≤ price ≤ max_price self.

Definition city_selected (self : PropertyFilter) (d : dict) : Prop :=
  cities self = [] ∨
  ∃ c city, c ∈ cities self ∧ get d "city" (SStr "") = SStr city ∧
            str_in (lower c) (lower city) = true.

Definition type_selected (self : PropertyFilter) (d : dict) : Prop :=
  property_types self = [] ∨
  get d "property_type" (SStr "") ∈ map SStr (property_types self).

(** The predicate in the words of the specification, for criteria given as
    the caller configured them: a bound of the price range that is not
    configured does not constrain ("default unbounded"), the minimal area
    defaults to 0, an empty list is a wildcard. *)
Definition matches_as_specified
    (min_price max_price min_area : option Z)
    (cities property_types : option (list string)) (d : dict) : Prop :=
  (∃ price, get d "price" (SInt 0) = SInt price ∧
            (∀ lo, min_price = Some lo → lo ≤ price) ∧
            (∀ hi, max_price = Some hi → price ≤ hi)) ∧
  (∃ area, get d "area" (SInt 0) = SInt area ∧ default 0 min_area ≤ area) ∧
  (default [] cities = [] ∨
   ∃ c city, c ∈ default [] cities ∧ get d "city" (SStr "") = SStr city ∧
             str_in (lower c) (lower city) = true) ∧
  (default [] property_types = [] ∨
   get d "property_type" (SStr "") ∈ map SStr (default [] property_types)).

(** The constraints of the schema on the rows that the engine writes:
    identifiers are unique and not NULL, the [NOT NULL] columns hold a
    value, and a history row refers to a stored record. *)
Definition primary_key (db : database) : Prop :=
  NoDup (map r_id (properties db)) ∧ SNone ∉ map r_id (properties db).

Definition not_null_columns (r : property_row) : Prop :=
  r_address r ≠ SNone ∧ r_city r ≠ SNone ∧ r_price r ≠ SNone ∧
  r_url r ≠ SNone ∧ r_source r ≠ SNone.

Definition foreign_key (db : database) : Prop :=
  ∀ h, h ∈ property_history db → h_property_id h ∈ map r_id (properties db).

Definition constraints_hold (db : database) : Prop :=
  primary_key db ∧
  (∀ r, r ∈ properties db → not_null_columns r) ∧
  foreign_key db.

(** No key of [extra_data] is the name of a column. *)
Definition extra_is_extra (db : database) : Prop :=
  ∀ r k, r ∈ properties db → k ∈ table_keys →
         scalars (r_extra_data r) !! k = None.

(** The columns that no [UPDATE] of the engine names. *)
Definition identity_columns (r : property_row) : scalar * scalar * string :=
  (r_id r, r_source r, r_first_seen r).

(** The keys of a listing that [get_property] does not give back as they
    were upserted: the store sets them itself. *)
Definition store_owned_keys : list string :=
  ["source"; "first_seen"; "last_seen"; "last_updated"; "active"].

(** The filter lets the record through. *)
Definition accepts (self : PropertyFilter) (d : dict) : bool :=
  match matches self d with Ok true => true | _ => false end.

(** The keys that [ChangeDetector.filter_properties] looks up in its
    criteria. *)
Definition criteria_keys : list string :=
  ["min_price"; "max_price"; "city"; "min_area"; "property_type"].

(** The criteria dictionary that names all five criteria. *)
Definition criteria (lo hi area : Z) (city property_type : string) : dict :=
  mk_dict (list_to_map [ ("min_price", SInt lo); ("max_price", SInt hi);
                         ("city", SStr city); ("min_area", SInt area);
                         ("property_type", SStr property_type) ]) None.

(** A record on which the two filters read the same values: it has a
    price, its city is text, and its area, when it has one, is an
    integer. *)
Definition filterable (d : dict) : Prop :=
  is_Some (scalars d !! "price") ∧
  (∃ s, scalars d !! "city" = Some (SStr s)) ∧
  (scalars d !! "area" = None ∨ ∃ n, scalars d !! "area" = Some (SInt n)).

(** ** Sample data

    The listings of the repository's own tests ([test_components.py]) and
    small variations of them, used to run the definitions. *)

Module Sample.

Definition listing (entries : list (string * scalar)) : dict :=
  mk_dict (list_to_map entries) None.

(** [test_update_property]: the listing that is stored first *)
Definition house : dict :=
  listing [ ("id", SStr "test_property_2"); ("address", SStr "Teststraat 456");
            ("city", SStr "Amsterdam"); ("price", SInt 180000);
            ("area", SInt 85); ("rooms", SInt 4);
            ("property_type", SStr "Eengezinswoning");
            ("url", SStr "https://example.com/property/2");
            ("source", SStr "test_source") ].

(** the same listing with the two fields that the test changes *)
Definition house_repriced : dict :=
  setitem (setitem house "price" (SInt 190000)) "rooms" (SInt 5).

(** a later scrape of the same listing that found a new price and no area *)
Definition house_without_area : dict :=
  listing [ ("id", SStr "test_property_2"); ("address", SStr "Teststraat 456");
            ("city", SStr "Amsterdam"); ("price", SInt 190000);
            ("rooms", SInt 4); ("property_type", SStr "Eengezinswoning");
            ("url", SStr "https://example.com/property/2");
            ("source", SStr "test_source") ].

(** the store after [house] was added at time [t0] *)
Definition one_house : database :=
  (add_or_update_property "t0" false empty_db house).2.

Definition house_row : property_row :=
  mk_row (SStr "test_property_2") (SStr "Teststraat 456") (SStr "Amsterdam")
         (SInt 180000) (SInt 85) (SInt 4) (SStr "Eengezinswoning")
         (SStr "https://example.com/property/2") (SStr "test_source")
         "t0" "t0" "t0" (extra_data_of house) true.

(** a listing whose identifier is the empty string *)
Definition nameless : dict :=
  listing [ ("id", SStr ""); ("address", SStr "Kade 1");
            ("city", SStr "Rotterdam"); ("price", SInt 150000);
            ("url", SStr "https://example.com/"); ("source", SStr "X") ].

(** the store after [nameless] was added at time [t0] *)
Definition one_nameless : database :=
  (add_or_update_property "t0" false empty_db nameless).2.

(** one listing object, at address 0, that holds [house] *)
Definition house_heap : loc → dict := λ _, house.

Definition stored_house : world := mk_world house_heap one_house 0.

(** the first call of a store operation meets a fault, the others none *)
Definition first_call_fails : env :=
  mk_env (λ _, "t1") (λ n, bool_decide (n = 0%nat)).

Definition no_fault : env := mk_env (λ _, "t1") (λ _, false).

(** a scraped listing without identifier *)
Definition unidentified : dict :=
  listing [ ("address", SStr "Kade 1"); ("city", SStr "Rotterdam");
            ("price", SInt 150000); ("url", SStr "https://example.com/") ].

(** two listing objects: [unidentified] at address 0, [house] elsewhere;
    nothing is stored yet *)
Definition unidentified_then_house : world :=
  mk_world (λ l, match l with O => unidentified | S _ => house end) empty_db 0.

(** the store after [house] was added at [t0] and swept away at [t1] *)
Definition one_house_gone : database :=
  (mark_inactive_properties "t1" false one_house [] (SStr "test_source")).2.

Definition house_gone_row : property_row :=
  mk_row (SStr "test_property_2") (SStr "Teststraat 456") (SStr "Amsterdam")
         (SInt 180000) (SInt 85) (SInt 4) (SStr "Eengezinswoning")
         (SStr "https://example.com/property/2") (SStr "test_source")
         "t0" "t0" "t1" (extra_data_of house) false.

(** the listing object holds [house] again, the stored record is inactive *)
Definition house_back : world := mk_world house_heap one_house_gone 0.

Definition no_fault_at (t : string) : env := mk_env (λ _, t) (λ _, false).

(** the listing object holds the repriced house, the record is stored *)
Definition repriced_house : world :=
  mk_world (λ _, house_repriced) one_house 0.

(** [house] scraped without its area *)
Definition house_area_unknown : dict :=
  listing [ ("id", SStr "test_property_2"); ("address", SStr "Teststraat 456");
            ("city", SStr "Amsterdam"); ("price", SInt 180000);
            ("rooms", SInt 4); ("property_type", SStr "Eengezinswoning");
            ("url", SStr "https://example.com/property/2");
            ("source", SStr "test_source") ].

(** the filter of [test_components.py] and the record it accepts *)
Definition test_filter : PropertyFilter :=
  PropertyFilter_init (Some 100000) (Some 225000) (Some 50)
                      (Some ["Rotterdam"; "Amsterdam"])
                      (Some ["Appartement"; "Eengezinswoning"]).

Definition flat : dict :=
  listing [ ("price", SInt 150000); ("area", SInt 75);
            ("city", SStr "Rotterdam"); ("property_type", SStr "Appartement") ].

(** a record above the price that [__init__] takes when none is given *)
Definition villa : dict :=
  listing [ ("price", SInt 12500000); ("area", SInt 400);
            ("city", SStr "Wassenaar"); ("property_type", SStr "Villa") ].

End Sample.

(** Further sample data. *)

Module More.

(** the record of [Sample.house] when it was added at time [t1] *)
Definition house_row_t1 : property_row :=
  mk_row (SStr "test_property_2") (SStr "Teststraat 456") (SStr "Amsterdam")
         (SInt 180000) (SInt 85) (SInt 4) (SStr "Eengezinswoning")
         (SStr "https://example.com/property/2") (SStr "test_source")
         "t1" "t1" "t1" (extra_data_of Sample.house) true.

(** nothing stored, one listing object that holds [Sample.house] *)
Definition first_scrape : world := mk_world Sample.house_heap empty_db 0.

(** the record of [Sample.house] after the upsert of
    [Sample.house_repriced] at time [t1] *)
Definition house_row_repriced : property_row :=
  mk_row (SStr "test_property_2") (SStr "Teststraat 456") (SStr "Amsterdam")
         (SInt 190000) (SInt 85) (SInt 5) (SStr "Eengezinswoning")
         (SStr "https://example.com/property/2") (SStr "test_source")
         "t0" "t1" "t1" (extra_data_of Sample.house_repriced) true.

(** a listing of another entity of the same source *)
Definition flat_listing : dict :=
  Sample.listing [ ("id", SStr "test_property_3"); ("address", SStr "Teststraat 789");
                   ("city", SStr "Rotterdam"); ("price", SInt 150000);
                   ("area", SInt 75); ("rooms", SInt 3);
                   ("property_type", SStr "Appartement");
                   ("url", SStr "https://example.com/property/3") ].

(** [Sample.house] is stored, the source now lists [flat_listing] only *)
Definition house_replaced : world :=
  mk_world (λ _, flat_listing) Sample.one_house 0.

(** the store holds [Sample.house] and [flat_listing], both of
    [test_source]; the source now lists the house only *)
Definition two_stored : database :=
  (add_or_update_property "t0" false Sample.one_house
     (setitem flat_listing "source" (SStr "test_source"))).2.

Definition house_listed_flat_unlisted : world :=
  mk_world Sample.house_heap two_stored 0.

Definition flat_gone_row : property_row :=
  mk_row (SStr "test_property_3") (SStr "Teststraat 789") (SStr "Rotterdam")
         (SInt 150000) (SInt 75) (SInt 3) (SStr "Appartement")
         (SStr "https://example.com/property/3") (SStr "test_source")
         "t0" "t0" "t1"
         (extra_data_of (setitem flat_listing "source" (SStr "test_source")))
         false.

(** the house is stored and inactive; the source lists the flat, at
    address 1, and the house again, at address 0 *)
Definition flat_and_house_back : world :=
  mk_world (λ l, match l with O => Sample.house | S _ => flat_listing end)
           Sample.one_house_gone 0.

(** the stored house is listed again, at a price above the filter's range *)
Definition house_too_dear : dict :=
  setitem Sample.house "price" (SInt 250000).

Definition house_priced_out : world :=
  mk_world (λ _, house_too_dear) Sample.one_house 0.

End More.

(** * Properties *)

(** ** Dictionaries and rows *)

Lemma extra_data_of_table_key property_data k :
  k ∈ table_keys → scalars (extra_data_of property_data) !! k = None.
Proof.
  intros Hk. unfold extra_data_of; simpl.
  apply map_lookup_filter_None. right. intros x _ Hn. by apply Hn.
Qed.

Lemma extra_data_of_other_key property_data k :
  k ∉ table_keys →
  scalars (extra_data_of property_data) !! k = scalars property_data !! k.
Proof.
  intros Hk. unfold extra_data_of; simpl.
  rewrite map_lookup_filter. destruct (scalars property_data !! k); simpl; [|done].
  by rewrite option_guard_True.
Qed.

Lemma existing_data_column r k :
  scalars (r_extra_data r) !! k = None →
  scalars (existing_data r) !! k = row_columns r !! k.
Proof.
  intros Hk. unfold existing_data; simpl.
  rewrite lookup_union, Hk. by destruct (row_columns r !! k).
Qed.

Lemma core_fields_table_keys f : f ∈ core_fields → f ∈ table_keys.
Proof.
  intros H. unfold core_fields in H.
  repeat (apply elem_of_cons in H as [->|H]);
    try (apply (bool_decide_unpack _); vm_compute; exact I).
  by apply elem_of_nil in H.
Qed.

(** ** The loop over the core fields *)

Lemma field_change_Some existing property_data f c :
  field_change existing property_data f = Some c ↔
  ∃ old new, scalars existing !! f = Some old ∧
             scalars property_data !! f = Some new ∧
             old ≠ new ∧ c = mk_change f old new.
Proof.
  unfold field_change. split.
  - destruct (scalars property_data !! f) as [new|]; [|done].
    destruct (scalars existing !! f) as [old|]; [|done].
    case_bool_decide; [|done]. intros [= <-]. by exists old, new.
  - intros (old & new & -> & -> & Hne & ->). by rewrite bool_decide_eq_true_2.
Qed.

Lemma elem_of_core_changes existing property_data c :
  c ∈ core_changes existing property_data ↔
  ∃ old new, field c ∈ core_fields ∧
             scalars existing !! field c = Some old ∧
             scalars property_data !! field c = Some new ∧
             old ≠ new ∧ c = mk_change (field c) old new.
Proof.
  unfold core_changes. rewrite list_elem_of_omap. split.
  - intros (f & Hf & Hc). apply field_change_Some in Hc as (old & new & ? & ? & ? & ->).
    simpl. by exists old, new.
  - intros (old & new & Hf & ? & ? & ? & Hc). exists (field c). split; [done|].
    rewrite Hc at 2. apply field_change_Some. by exists old, new.
Qed.

Lemma changed_type_inj f g : "changed_" +:+ f = "changed_" +:+ g → f = g.
Proof. intros H. vm_compute in H. by injection H. Qed.

(** ** Upsert of an entity that has a stored record *)

(** What a call that found a stored record and did not fail has done. *)
Lemma upsert_existing_inv now fault db property_data id existing status changes db' :
  scalars property_data !! "id" = Some id →
  select_by_id db id = Some existing →
  add_or_update_property now fault db property_data = (Ok (status, changes), db') →
  status ≠ "error" →
  changes = core_changes (existing_data existing) property_data ∧
  property_history db' = property_history db ++ map (changed_row now id) changes ∧
  ((status = "unchanged" ∧ changes = [] ∧
    properties db' = update_where_id id (set_last_seen now) (properties db)) ∨
   (status = "updated" ∧ changes ≠ [] ∧
    ∃ address city price url,
      scalars property_data !! "address" = Some address ∧
      scalars property_data !! "city" = Some city ∧
      scalars property_data !! "price" = Some price ∧
      scalars property_data !! "url" = Some url ∧
      properties db' =
        update_where_id id
          (set_all_fields now address city price
             (get property_data "area" (SInt 0))
             (get property_data "rooms" (SInt 0))
             (get property_data "property_type" (SStr "Onbekend"))
             url (extra_data_of property_data))
          (properties db))).
Proof.
  intros Hid Hsel Hrun Hok. unfold add_or_update_property in Hrun.
  unfold getitem in Hrun at 1. rewrite Hid in Hrun.
  destruct fault; [by simplify_eq|]. rewrite Hsel in Hrun.
  destruct (core_changes (existing_data existing) property_data) as [|c cs] eqn:Hc.
  - simplify_eq. simpl. rewrite app_nil_r. split_and!; [done..|]. by left.
  - unfold getitem in Hrun.
    destruct (scalars property_data !! "address") as [address|]; [|by simplify_eq].
    destruct (scalars property_data !! "city") as [city|]; [|by simplify_eq].
    destruct (scalars property_data !! "price") as [price|]; [|by simplify_eq].
    destruct (scalars property_data !! "url") as [url|]; [|by simplify_eq].
    simpl in Hrun.
    destruct (is_null address || is_null city || is_null price || is_null url);
      simplify_eq.
    simpl. split_and!; [done..|]. right. split_and!; [done..|].
    by exists address, city, price, url.
Qed.

(** C1 (as amended).  For an entity that has a stored record, an upsert that
    succeeds appends a [changed_<field>] history row for a core field if and
    only if the candidate supplies that field with a value different from
    the stored one, and the row carries the old and the new value. *)
Theorem upsert_records_supplied_changes
    now fault db property_data id existing status changes db' :
  scalars property_data !! "id" = Some id →
  select_by_id db id = Some existing →
  add_or_update_property now fault db property_data = (Ok (status, changes), db') →
  status ≠ "error" →
  ∃ appended,
    property_history db' = property_history db ++ appended ∧
    ∀ f, f ∈ core_fields →
      ((∃ h, h ∈ appended ∧ h_change_type h = "changed_" +:+ f) ↔
       (∃ old new, scalars (existing_data existing) !! f = Some old ∧
                   scalars property_data !! f = Some new ∧ old ≠ new)) ∧
      (∀ old new, scalars (existing_data existing) !! f = Some old →
                  scalars property_data !! f = Some new → old ≠ new →
                  mk_history id ("changed_" +:+ f) now
                             (Some (py_str old)) (py_str new) ∈ appended).
Proof.
  intros Hid Hsel Hrun Hok.
  destruct (upsert_existing_inv _ _ _ _ _ _ _ _ _ Hid Hsel Hrun Hok)
    as (-> & Hhist & _).
  eexists. split; [exact Hhist|]. intros f Hf. split; [split|].
  - intros (h & Hh & Hty). apply list_elem_of_fmap in Hh as (c & -> & Hc).
    apply elem_of_core_changes in Hc as (old & new & _ & Ho & Hn & Hne & _).
    simpl in Hty. apply changed_type_inj in Hty as <-. by exists old, new.
  - intros (old & new & Ho & Hn & Hne).
    exists (changed_row now id (mk_change f old new)). split; [|done].
    apply list_elem_of_fmap. exists (mk_change f old new). split; [done|].
    apply elem_of_core_changes. by exists old, new.
  - intros old new Ho Hn Hne.
    apply list_elem_of_fmap. exists (mk_change f old new). split; [done|].
    apply elem_of_core_changes. by exists old, new.
Qed.

Lemma upsert_records_supplied_changes_witness :
  ∃ appended,
    property_history
      (add_or_update_property "t1" false Sample.one_house Sample.house_repriced).2
    = property_history Sample.one_house ++ appended ∧
    ∀ f, f ∈ core_fields →
      ((∃ h, h ∈ appended ∧ h_change_type h = "changed_" +:+ f) ↔
       (∃ old new, scalars (existing_data Sample.house_row) !! f = Some old ∧
                   scalars Sample.house_repriced !! f = Some new ∧ old ≠ new)) ∧
      (∀ old new, scalars (existing_data Sample.house_row) !! f = Some old →
                  scalars Sample.house_repriced !! f = Some new → old ≠ new →
                  mk_history (SStr "test_property_2") ("changed_" +:+ f) "t1"
                             (Some (py_str old)) (py_str new) ∈ appended).
Proof.
  apply (upsert_records_supplied_changes "t1" false Sample.one_house
           Sample.house_repriced (SStr "test_property_2") Sample.house_row
           "updated"
           [mk_change "price" (SInt 180000) (SInt 190000);
            mk_change "rooms" (SInt 4) (SInt 5)]).
  - vm_compute; reflexivity.
  - vm_compute; reflexivity.
  - vm_compute; reflexivity.
  - discriminate.
Defined.

(** C1 as the specification words it fails: the stored area of the entity
    is replaced (85 becomes the default 0) by an upsert whose candidate has
    no area and a new price, and no [changed_area] row is written. *)
Lemma upsert_silent_default_counterexample :
  let db := Sample.one_house in
  let r := add_or_update_property "t1" false db Sample.house_without_area in
  r.1 = Ok ("updated", [mk_change "price" (SInt 180000) (SInt 190000)]) ∧
  (r_area <$> select_by_id db (SStr "test_property_2")) = Some (SInt 85) ∧
  (r_area <$> select_by_id r.2 (SStr "test_property_2")) = Some (SInt 0) ∧
  map h_change_type (property_history r.2) = ["new_property"; "changed_price"].
Proof. vm_compute. by repeat split. Qed.

(** ** The inactivation sweep *)

Lemma sql_eq_bool_decide a b : b ≠ SNone → sql_eq a b = bool_decide (a = b).
Proof.
  intros Hb. destruct a, b; simpl; try done; try (by destruct Hb).
  all: symmetry; by apply bool_decide_eq_false_2.
Qed.

Lemma sql_eq_true a b : sql_eq a b = true → a = b ∧ a ≠ SNone.
Proof.
  destruct a, b; simpl; try done.
  all: intros H%bool_decide_eq_true; by simplify_eq.
Qed.

Lemma sql_not_in_not_null x l : sql_not_in x l = true → x ≠ SNone.
Proof. by destruct x. Qed.

Lemma missing_not_null active_ids source r :
  missing active_ids source r = true → r_id r ≠ SNone.
Proof.
  unfold missing. intros H. apply andb_prop in H as [_ H].
  by apply sql_not_in_not_null in H.
Qed.

Lemma update_where_id_set_inactive now id rows :
  id ≠ SNone →
  update_where_id id (set_inactive now) rows =
  map (λ r, if bool_decide (r_id r = id) then set_inactive now r else r) rows.
Proof.
  intros Hid. unfold update_where_id. apply map_ext. intros r.
  by rewrite sql_eq_bool_decide.
Qed.

Lemma map_if_never {A} (c : A → bool) (f : A → A) (l : list A) :
  (∀ x, c x = false) → map (λ x, if c x then f x else x) l = l.
Proof.
  intros Hc. induction l as [|x l IH]; [done|]. simpl. by rewrite Hc, IH.
Qed.

Lemma fold_deactivate now ids db :
  SNone ∉ ids →
  properties (fold_left (deactivate now) ids db) =
    map (λ r, if bool_decide (r_id r ∈ ids) then set_inactive now r else r)
        (properties db) ∧
  property_history (fold_left (deactivate now) ids db) =
    property_history db ++ map (inactive_row now) ids.
Proof.
  revert db. induction ids as [|id ids IH]; intros db Hnull.
  - cbn [fold_left]. split; [|by rewrite app_nil_r].
    symmetry.
    apply (map_if_never (λ r, bool_decide (r_id r ∈ [])) (set_inactive now)).
    intros r. apply bool_decide_eq_false_2, not_elem_of_nil.
  - cbn [fold_left]. apply not_elem_of_cons in Hnull as [Hid Hnull].
    destruct (IH (deactivate now db id) Hnull) as [Hrows Hhist].
    rewrite Hrows, Hhist. simpl. split; [|by rewrite <- app_assoc].
    rewrite update_where_id_set_inactive by done. rewrite map_map.
    apply map_ext. intros r.
    destruct (decide (r_id r = id)) as [Heq|Hne].
    + rewrite (bool_decide_eq_true_2 (r_id r = id)) by done.
      rewrite (bool_decide_eq_true_2 (r_id r ∈ id :: ids)) by (subst; left).
      simpl. by case_bool_decide.
    + rewrite (bool_decide_eq_false_2 (r_id r = id)) by done.
      rewrite (bool_decide_ext (r_id r ∈ id :: ids) (r_id r ∈ ids)); [done|].
      rewrite elem_of_cons. split; [by intros [?|?] | by right].
Qed.

Lemma missing_ids_not_null active_ids source rows :
  SNone ∉ map r_id (List.filter (missing active_ids source) rows).
Proof.
  intros H. apply list_elem_of_fmap in H as (r & Hr & Hin).
  apply list_elem_of_In, filter_In in Hin as [_ Hm].
  by apply missing_not_null in Hm.
Qed.

(** What one sweep does to the two tables. *)
Lemma sweep_inv now fault db active_ids source removed db' :
  mark_inactive_properties now fault db active_ids source = (removed, db') →
  removed = (if fault then []
             else map r_id (List.filter (missing active_ids source) (properties db))) ∧
  properties db' =
    map (λ r, if bool_decide (r_id r ∈ removed) then set_inactive now r else r)
        (properties db) ∧
  property_history db' = property_history db ++ map (inactive_row now) removed.
Proof.
  unfold mark_inactive_properties. destruct fault; intros [= <- <-].
  - split; [done|]. split; [|by rewrite app_nil_r].
    symmetry.
    apply (map_if_never (λ r, bool_decide (r_id r ∈ [])) (set_inactive now)).
    intros r. apply bool_decide_eq_false_2, not_elem_of_nil.
  - split; [done|]. apply fold_deactivate, missing_ids_not_null.
Qed.

(** ** Upserts that report [unchanged] *)

Lemma upsert_unchanged_inv now fault db property_data changes db' :
  add_or_update_property now fault db property_data
    = (Ok ("unchanged", changes), db') →
  ∃ id existing,
    scalars property_data !! "id" = Some id ∧
    select_by_id db id = Some existing ∧
    core_changes (existing_data existing) property_data = [] ∧
    changes = [] ∧
    db' = mk_db (update_where_id id (set_last_seen now) (properties db))
                (property_history db).
Proof.
  unfold add_or_update_property, getitem. intros Hrun.
  destruct (scalars property_data !! "id") as [id|] eqn:Hid; [|by simplify_eq].
  destruct fault; [by simplify_eq|].
  destruct (select_by_id db id) as [existing|] eqn:Hsel.
  - destruct (core_changes (existing_data existing) property_data) eqn:Hc.
    + simplify_eq. by exists id, existing.
    + repeat case_match; simplify_eq/=.
  - repeat case_match; simplify_eq/=.
Qed.

Lemma update_where_id_last_updated id f rows :
  (∀ r, r_last_updated (f r) = r_last_updated r) →
  map r_last_updated (update_where_id id f rows) = map r_last_updated rows.
Proof.
  intros Hf. unfold update_where_id. rewrite map_map. apply map_ext.
  intros r. by destruct (sql_eq (r_id r) id).
Qed.

(** C6 (as amended).  An upsert that reports [unchanged] leaves the
    [last_updated] column of every record as it was; the inactivation sweep
    writes the time of the sweep into [last_updated] of every record it
    deactivates and leaves that column of all other records as it was. *)
Theorem last_updated_after_unchanged_and_sweep
    now fault db property_data changes db1
    now' fault' active_ids source removed db2 :
  add_or_update_property now fault db property_data
    = (Ok ("unchanged", changes), db1) →
  mark_inactive_properties now' fault' db1 active_ids source = (removed, db2) →
  map r_last_updated (properties db1) = map r_last_updated (properties db) ∧
  map r_last_updated (properties db2) =
    map (λ r, if bool_decide (r_id r ∈ removed) then now' else r_last_updated r)
        (properties db1).
Proof.
  intros Hup Hsweep. split.
  - apply upsert_unchanged_inv in Hup as (id & existing & _ & _ & _ & _ & ->).
    simpl. by apply update_where_id_last_updated.
  - apply sweep_inv in Hsweep as (_ & -> & _). rewrite map_map.
    apply map_ext. intros r. by case_bool_decide.
Qed.

Lemma last_updated_after_unchanged_and_sweep_witness :
  let db1 := (add_or_update_property "t1" false Sample.one_house Sample.house).2 in
  let db2 := (mark_inactive_properties "t2" false db1 [] (SStr "test_source")).2 in
  map r_last_updated (properties db1) = map r_last_updated (properties Sample.one_house) ∧
  map r_last_updated (properties db2) =
    map (λ r, if bool_decide (r_id r ∈ [SStr "test_property_2"]) then "t2"
              else r_last_updated r)
        (properties db1).
Proof.
  apply (last_updated_after_unchanged_and_sweep
           "t1" false Sample.one_house Sample.house []
           _ "t2" false [] (SStr "test_source")).
  - vm_compute; reflexivity.
  - vm_compute; reflexivity.
Defined.

(** C6 as the specification words it fails: the sweep that deactivates the
    stored record also moves its [last_updated] from [t0] to [t2]. *)
Lemma sweep_bumps_last_updated_counterexample :
  let db := Sample.one_house in
  let r := mark_inactive_properties "t2" false db [] (SStr "test_source") in
  r.1 = [SStr "test_property_2"] ∧
  map r_last_updated (properties db) = ["t0"] ∧
  map r_last_updated (properties r.2) = ["t2"] ∧
  map r_active (properties r.2) = [false].
Proof. vm_compute. by repeat split. Qed.

(** ** Which records the sweep deactivates *)

Lemma NoDup_fmap_inj {A B} (f : A → B) (l : list A) x y :
  NoDup (map f l) → x ∈ l → y ∈ l → f x = f y → x = y.
Proof.
  induction l as [|a l IH]; intros Hnd Hx Hy Hf; [by apply elem_of_nil in Hx|].
  simpl in Hnd. inversion Hnd as [|? ? Ha Hnd']; subst.
  apply elem_of_cons in Hx as [->|Hx]; apply elem_of_cons in Hy as [->|Hy].
  - done.
  - exfalso. apply Ha. rewrite Hf. by apply list_elem_of_fmap_2.
  - exfalso. apply Ha. rewrite <- Hf. by apply list_elem_of_fmap_2.
  - by apply IH.
Qed.

Lemma removed_iff_missing active_ids source rows r :
  NoDup (map r_id rows) → r ∈ rows →
  r_id r ∈ map r_id (List.filter (missing active_ids source) rows) ↔
  missing active_ids source r = true.
Proof.
  intros Hnd Hr. split.
  - intros H. apply list_elem_of_fmap in H as (r0 & Hid & Hin).
    apply list_elem_of_In, filter_In in Hin as [Hin Hm].
    apply list_elem_of_In in Hin.
    by rewrite (NoDup_fmap_inj r_id rows r r0 Hnd Hr Hin Hid).
  - intros Hm. apply list_elem_of_fmap_2, list_elem_of_In, filter_In.
    split; [by apply list_elem_of_In|done].
Qed.

(** With the primary key in force, a sweep that meets no fault deactivates
    the records selected by its query, and only them. *)
Lemma sweep_deactivates_missing now db active_ids source removed db' :
  NoDup (map r_id (properties db)) →
  mark_inactive_properties now false db active_ids source = (removed, db') →
  removed = map r_id (List.filter (missing active_ids source) (properties db)) ∧
  properties db' =
    map (λ r, if missing active_ids source r then set_inactive now r else r)
        (properties db) ∧
  property_history db' = property_history db ++ map (inactive_row now) removed.
Proof.
  intros Hnd Hrun. apply sweep_inv in Hrun as (Hrem & -> & ->).
  split; [done|]. split; [|done]. apply map_ext_in. intros r Hr.
  apply list_elem_of_In in Hr. rewrite Hrem.
  destruct (missing active_ids source r) eqn:Hm.
  - rewrite bool_decide_eq_true_2; [done|]. by apply removed_iff_missing.
  - rewrite bool_decide_eq_false_2; [done|].
    rewrite removed_iff_missing by done. by rewrite Hm.
Qed.

(** The query of a sweep with a non-empty list of seen identifiers. *)
Lemma missing_seen active_ids source r :
  active_ids ≠ [] → SNone ∉ active_ids → r_id r ≠ SNone →
  missing active_ids (SStr source) r = true ↔
  r_source r = SStr source ∧ r_active r = true ∧ r_id r ∉ active_ids.
Proof.
  intros Hne Hnull Hid. unfold missing.
  destruct active_ids as [|a l]; [done|].
  rewrite !andb_true_iff, sql_eq_bool_decide, bool_decide_eq_true by done.
  assert (sql_not_in (r_id r) (a :: l) = true ↔ r_id r ∉ a :: l) as ->; [|tauto].
  unfold sql_not_in. destruct (r_id r) eqn:Hr; [done|..].
  all: rewrite negb_true_iff, <- not_true_iff_false, existsb_exists.
  all: split.
  all: try (intros Hno Hin; apply Hno; eexists; split;
            [by apply list_elem_of_In|];
            apply orb_true_iff; left; by apply bool_decide_eq_true).
  all: intros Hnin (x & Hx & Hor); apply list_elem_of_In in Hx;
       apply orb_true_iff in Hor as [H|H]; apply bool_decide_eq_true in H;
       subst; tauto.
Qed.

(** A record of another source is never selected. *)
Lemma missing_other_source active_ids source r :
  r_source r ≠ source → missing active_ids source r = false.
Proof.
  intros Hs. unfold missing.
  destruct (sql_eq (r_source r) source) eqn:He; [|done].
  by apply sql_eq_true in He as [? _].
Qed.

(** C3: the code at the input on which it departs from the specified
    sweep.  The store holds one active record of source [X], whose identifier is the
    empty string; the sweep for [X] with no seen identifier returns no
    identifier and leaves the record active. *)
Theorem sweep_with_nothing_seen_skips_empty_id :
  select_by_id Sample.one_nameless (SStr "") <> None ∧
  map r_source (properties Sample.one_nameless) = [SStr "X"] ∧
  map r_active (properties Sample.one_nameless) = [true] ∧
  map (missing [] (SStr "X")) (properties Sample.one_nameless) = [false] ∧
  mark_inactive_properties "t1" false Sample.one_nameless [] (SStr "X")
    = ([], Sample.one_nameless).
Proof. vm_compute. by repeat split. Qed.

(** ** The loop of the change detector *)

(** What one turn of the loop that raised nothing has done. *)
Lemma process_one_inv e source listing new upd ids w acc1 w1 :
  process_one e source listing (new, upd, ids) w = (Ok acc1, w1) →
  ∃ status changes id,
    add_or_update_property (clock e (calls w)) (faulty e (calls w)) (store w)
        (setitem (heap w listing) "source" (SStr source))
      = (Ok (status, changes), store w1) ∧
    scalars (heap w listing) !! "id" = Some id ∧
    calls w1 = S (calls w) ∧
    (∀ l, l ≠ listing → heap w1 l = heap w l) ∧
    ((status = "new" ∧ acc1 = (new ++ [listing], upd, ids ++ [id]) ∧
      heap w1 listing = setitem (heap w listing) "source" (SStr source)) ∨
     (status ≠ "new" ∧ status = "updated" ∧ changes ≠ [] ∧
      acc1 = (new, upd ++ [listing], ids ++ [id]) ∧
      heap w1 listing =
        set_changes (setitem (heap w listing) "source" (SStr source)) changes) ∨
     (status ≠ "new" ∧ (status ≠ "updated" ∨ changes = []) ∧
      acc1 = (new, upd, ids ++ [id]) ∧
      heap w1 listing = setitem (heap w listing) "source" (SStr source))).
Proof.
  unfold process_one. rewrite fn_lookup_insert. intros Hrun.
  set (stamped := setitem (heap w listing) "source" (SStr source)) in *.
  destruct (add_or_update_property _ _ _ stamped) as [[[status changes]|ex] db]
    eqn:Hup; [|by simplify_eq].
  unfold getitem in Hrun.
  assert (scalars stamped !! "id" = scalars (heap w listing) !! "id") as Hid.
  { unfold stamped, setitem; simpl. by rewrite lookup_insert_ne. }
  rewrite Hid in Hrun.
  destruct (scalars (heap w listing) !! "id") as [id|]; [|by simplify_eq].
  exists status, changes, id.
  destruct (bool_decide (status = "new")) eqn:Hnew.
  - apply bool_decide_eq_true in Hnew. simplify_eq. simpl.
    split_and!; [done..| |].
    + intros l Hl. by rewrite fn_lookup_insert_ne.
    + left. by rewrite fn_lookup_insert.
  - apply bool_decide_eq_false in Hnew.
    destruct (bool_decide (status = "updated")) eqn:Hupd; simpl in Hrun.
    + apply bool_decide_eq_true in Hupd.
      destruct (bool_decide (changes = [])) eqn:Hch; simpl in Hrun.
      * apply bool_decide_eq_true in Hch. simplify_eq. simpl.
        split_and!; [done..| |].
        -- intros l Hl. by rewrite fn_lookup_insert_ne.
        -- right; right. rewrite fn_lookup_insert. split_and!; auto.
      * apply bool_decide_eq_false in Hch. simplify_eq. simpl.
        split_and!; [done..| |].
        -- intros l Hl. by rewrite !fn_lookup_insert_ne.
        -- right; left. by rewrite fn_lookup_insert.
    + apply bool_decide_eq_false in Hupd. simplify_eq. simpl.
      split_and!; [done..| |].
      * intros l Hl. by rewrite fn_lookup_insert_ne.
      * right; right. rewrite fn_lookup_insert. split_and!; auto.
Qed.

Lemma ingest_app e source pre post acc w :
  ingest e source (pre ++ post) acc w =
  match ingest e source pre acc w with
  | (Ok acc1, w1) => ingest e source post acc1 w1
  | (Raise ex, w1) => (Raise ex, w1)
  end.
Proof.
  revert acc w. induction pre as [|l pre IH]; intros acc w; [done|].
  simpl. destruct (process_one e source l acc w) as [[acc1|ex] w1]; [|done].
  apply IH.
Qed.

(** The entries of a listing that a turn of the loop leaves alone. *)
Lemma process_one_scalars e source listing acc w acc1 w1 l k :
  process_one e source listing acc w = (Ok acc1, w1) →
  k ≠ "source" → k ≠ "changes" →
  scalars (heap w1 l) !! k = scalars (heap w l) !! k.
Proof.
  destruct acc as [[new upd] ids]. intros Hrun Hk1 Hk2.
  apply process_one_inv in Hrun
    as (status & changes & id & _ & _ & _ & Hframe & Hcase).
  destruct (decide (l = listing)) as [->|Hne]; [|by rewrite Hframe].
  destruct Hcase as [(_ & _ & ->)|[(_ & _ & _ & _ & ->)|(_ & _ & _ & ->)]];
    simpl; rewrite ?lookup_delete_ne by done; by rewrite lookup_insert_ne.
Qed.

Lemma ingest_scalars e source listings acc w acc1 w1 l k :
  ingest e source listings acc w = (Ok acc1, w1) →
  k ≠ "source" → k ≠ "changes" →
  scalars (heap w1 l) !! k = scalars (heap w l) !! k.
Proof.
  intros Hrun Hk1 Hk2. revert acc w Hrun.
  induction listings as [|x rest IH]; intros acc w Hrun; simpl in Hrun.
  - by simplify_eq.
  - destruct (process_one e source x acc w) as [[acc2|ex] w2] eqn:Hone;
      [|by simplify_eq].
    rewrite (IH _ _ Hrun). by eapply process_one_scalars.
Qed.

(** ** The identifiers handed to the sweep *)

Lemma ingest_active_ids e source listings new upd ids w new1 upd1 ids1 w1 :
  ingest e source listings (new, upd, ids) w = (Ok (new1, upd1, ids1), w1) →
  ∃ seen, ids1 = ids ++ seen ∧
          map Some seen = map (λ l, scalars (heap w l) !! "id") listings.
Proof.
  revert new upd ids w. induction listings as [|x rest IH];
    intros new upd ids w Hrun; cbn [ingest] in Hrun.
  - simplify_eq. exists []. by rewrite app_nil_r.
  - destruct (process_one e source x (new, upd, ids) w) as [[acc2|ex] w2] eqn:Hone;
      [|by simplify_eq].
    pose proof Hone as Hinv. apply process_one_inv in Hinv
      as (status & changes & id & _ & Hid & _ & _ & Hcase).
    assert (∃ new2 upd2, acc2 = (new2, upd2, ids ++ [id])) as (new2 & upd2 & ->).
    { destruct Hcase as [(_ & -> & _)|[(_ & _ & _ & -> & _)|(_ & _ & -> & _)]];
        by eexists _, _. }
    apply IH in Hrun as (seen & -> & Hseen). exists (id :: seen). split.
    + by rewrite <- app_assoc.
    + simpl. rewrite Hid, Hseen. f_equal. apply map_ext. intros l.
      by eapply process_one_scalars.
Qed.

Lemma seen_not_removed now fault db active_ids source removed db' id :
  mark_inactive_properties now fault db active_ids source = (removed, db') →
  id ∈ active_ids → id ∉ removed.
Proof.
  intros Hrun Hin Hrem. apply sweep_inv in Hrun as (-> & _).
  destruct fault; [by apply elem_of_nil in Hrem|].
  apply list_elem_of_fmap in Hrem as (r & -> & Hr).
  apply list_elem_of_In, filter_In in Hr as [_ Hm]. unfold missing in Hm.
  apply andb_prop in Hm as [_ Hm].
  destruct active_ids as [|a l]; [by apply elem_of_nil in Hin|].
  unfold sql_not_in in Hm. destruct (r_id r) eqn:Hr; [done|..].
  all: apply negb_true_iff in Hm; apply not_true_iff_false in Hm; apply Hm.
  all: apply existsb_exists; eexists; split; [by apply list_elem_of_In|].
  all: apply orb_true_iff; left; by apply bool_decide_eq_true.
Qed.

(** C2 (as amended).  A batch that [process_listings] completes has gone
    through the loop and then through one sweep, and the list of seen
    identifiers that [process_listings] hands to that sweep holds the
    identifier of every snapshot of the batch, in order and whatever status
    its upsert returned, [error] included: the store that the batch leaves
    is the one that the sweep called with this list leaves.  So the sweep
    of the batch returns no identifier of the batch, leaves every record
    with such an identifier as the loop left it, and appends
    [property_inactive] rows for the returned identifiers only, which are
    the identifiers that the removed list of the result is fetched for. *)
Theorem seen_ids_are_all_ids e source listings w res w' :
  process_listings e source listings w = (Ok res, w') →
  ∃ new upd seen w1 removed,
    ingest e source listings ([], [], []) w = (Ok (new, upd, seen), w1) ∧
    map Some seen = map (λ l, scalars (heap w l) !! "id") listings ∧
    mark_inactive_properties (clock e (calls w1)) (faulty e (calls w1))
                             (store w1) seen (SStr source)
      = (removed, store w') ∧
    (∀ id, id ∈ seen → id ∉ removed) ∧
    (∀ r, r ∈ properties (store w1) → r_id r ∈ seen →
          r ∈ properties (store w')) ∧
    property_history (store w')
      = property_history (store w1)
        ++ map (inactive_row (clock e (calls w1))) removed ∧
    res_removed res
      = (fetch_removed e removed [] (store w') (S (calls w1))).1.
Proof.
  unfold process_listings. intros Hrun.
  destruct (ingest e source listings ([], [], []) w)
    as [[[[new upd] seen]|ex] w1] eqn:Hin; [|by simplify_eq].
  destruct (mark_inactive_properties _ _ _ _ _) as [removed db] eqn:Hsweep.
  destruct (fetch_removed _ _ _ _ _) as [removed_properties n] eqn:Hfetch.
  simplify_eq. simpl.
  pose proof (ingest_active_ids _ _ _ _ _ _ _ _ _ _ _ Hin) as (seen' & Hs & Hseen).
  simpl in Hs. subst seen'.
  pose proof (sweep_inv _ _ _ _ _ _ _ Hsweep) as (_ & Hrows & Hhist).
  exists new, upd, seen, w1, removed.
  split_and!; [done..| | |done|by rewrite Hfetch].
  - intros id Hid. by eapply seen_not_removed.
  - intros r Hr Hid. rewrite Hrows. apply list_elem_of_fmap. exists r.
    split; [|done]. rewrite bool_decide_eq_false_2; [done|].
    by eapply seen_not_removed.
Qed.

Lemma seen_ids_are_all_ids_witness :
  let e := Sample.first_call_fails in
  let w := More.house_listed_flat_unlisted in
  ∃ new upd seen w1 removed,
    ingest e "test_source" [0%nat] ([], [], []) w = (Ok (new, upd, seen), w1) ∧
    map Some seen = map (λ l, scalars (heap w l) !! "id") [0%nat] ∧
    mark_inactive_properties (clock e (calls w1)) (faulty e (calls w1))
                             (store w1) seen (SStr "test_source")
      = (removed, store (process_listings e "test_source" [0%nat] w).2) ∧
    (∀ id, id ∈ seen → id ∉ removed) ∧
    (∀ r, r ∈ properties (store w1) → r_id r ∈ seen →
          r ∈ properties (store (process_listings e "test_source" [0%nat] w).2)) ∧
    property_history (store (process_listings e "test_source" [0%nat] w).2)
      = property_history (store w1)
        ++ map (inactive_row (clock e (calls w1))) removed ∧
    res_removed (mk_result [] [] [existing_data More.flat_gone_row])
      = (fetch_removed e removed []
           (store (process_listings e "test_source" [0%nat] w).2)
           (S (calls w1))).1.
Proof.
  apply (seen_ids_are_all_ids Sample.first_call_fails "test_source" [0%nat]
           More.house_listed_flat_unlisted
           (mk_result [] [] [existing_data More.flat_gone_row])).
  vm_compute; reflexivity.
Defined.

(** C2 as the specification words it fails: the upsert of the only
    snapshot of the batch meets a persistence fault and returns [error],
    its identifier is in the list of seen identifiers all the same, and
    the sweep leaves the stored entity active. *)
Lemma failed_upsert_counts_as_seen_counterexample :
  let e := Sample.first_call_fails in
  let w := Sample.stored_house in
  (add_or_update_property (clock e 0) (faulty e 0) (store w)
     (setitem (heap w 0%nat) "source" (SStr "test_source"))).1
    = Ok ("error", []) ∧
  (ingest e "test_source" [0%nat] ([], [], []) w).1
    = Ok ([], [], [SStr "test_property_2"]) ∧
  (process_listings e "test_source" [0%nat] w).1 = Ok (mk_result [] [] []) ∧
  map r_active (properties (store (process_listings e "test_source" [0%nat] w).2))
    = [true].
Proof. vm_compute. by repeat split. Qed.

(** ** Snapshots without a mandatory field *)





(** ** What the loop does to the listing objects *)

Lemma process_one_heap e source listing new upd ids w acc1 w1 :
  process_one e source listing (new, upd, ids) w = (Ok acc1, w1) →
  stamped source (heap w1 listing) ∧
  (∀ l, stamped source (heap w l) → stamped source (heap w1 l)) ∧
  (∀ l, has_changes (heap w l) → has_changes (heap w1 l)) ∧
  (∀ l, l ≠ listing → heap w1 l = heap w l) ∧
  ∃ n u id, acc1 = (new ++ n, upd ++ u, ids ++ [id]) ∧
            (n = [] ∨ n = [listing]) ∧
            (u = [] ∨ u = [listing] ∧ has_changes (heap w1 listing)).
Proof.
  intros Hrun. apply process_one_inv in Hrun
    as (status & changes & id & _ & _ & _ & Hframe & Hcase).
  assert (stamped source (heap w1 listing)) as Hst.
  { unfold stamped.
    destruct Hcase as [(_ & _ & ->)|[(_ & _ & _ & _ & ->)|(_ & _ & _ & ->)]];
      simpl; rewrite ?lookup_delete_ne by done; by rewrite lookup_insert_eq. }
  split; [done|]. split_and!.
  - intros l Hl. destruct (decide (l = listing)) as [->|Hne]; [done|].
    by rewrite Hframe.
  - intros l Hl. destruct (decide (l = listing)) as [->|Hne];
      [|by rewrite Hframe].
    destruct Hcase as [(_ & _ & ->)|[(_ & _ & Hch & _ & ->)|(_ & _ & _ & ->)]];
      try done.
    by exists changes.
  - done.
  - destruct Hcase as [(_ & -> & _)|[(_ & _ & Hch & -> & Hh)|(_ & _ & -> & _)]].
    + exists [listing], [], id. rewrite app_nil_r. auto.
    + exists [], [listing], id. rewrite app_nil_r. split; [done|].
      split; [by left|]. right. split; [done|]. rewrite Hh. by exists changes.
    + exists [], [], id. rewrite !app_nil_r. auto.
Qed.

Lemma ingest_heap e source listings new upd ids w new1 upd1 ids1 w1 :
  ingest e source listings (new, upd, ids) w = (Ok (new1, upd1, ids1), w1) →
  (∀ l, l ∈ listings → stamped source (heap w1 l)) ∧
  (∀ l, stamped source (heap w l) → stamped source (heap w1 l)) ∧
  (∀ l, has_changes (heap w l) → has_changes (heap w1 l)) ∧
  (∀ l, l ∉ listings → heap w1 l = heap w l) ∧
  ∃ n u, new1 = new ++ n ∧ upd1 = upd ++ u ∧
         n `sublist_of` listings ∧ u `sublist_of` listings ∧
         (∀ l, l ∈ u → has_changes (heap w1 l)).
Proof.
  revert new upd ids w. induction listings as [|x rest IH];
    intros new upd ids w Hrun; cbn [ingest] in Hrun.
  - simplify_eq. split_and!; try done.
    + intros l Hl. by apply elem_of_nil in Hl.
    + exists [], []. rewrite !app_nil_r. split_and!; try done.
      intros l Hl. by apply elem_of_nil in Hl.
  - destruct (process_one e source x (new, upd, ids) w) as [[acc2|ex] w2] eqn:Hone;
      [|by simplify_eq].
    apply process_one_heap in Hone
      as (Hstx & Hst & Hch & Hframe & n & u & id & -> & Hn & Hu).
    apply IH in Hrun as (Hst' & Hkeep' & Hch' & Hframe' & n' & u' & -> & -> & Hn' & Hu' & Hhas').
    split_and!.
    + intros l Hl. apply elem_of_cons in Hl as [->|Hl]; auto.
    + auto.
    + auto.
    + intros l Hl. apply not_elem_of_cons in Hl as [Hne Hl].
      rewrite Hframe' by done. by apply Hframe.
    + exists (n ++ n'), (u ++ u'). rewrite !app_assoc. split_and!; try done.
      * destruct Hn as [->| ->]; simpl; by constructor.
      * destruct Hu as [->|[-> _]]; simpl; by constructor.
      * intros l Hl. apply elem_of_app in Hl as [Hl|Hl]; [|by auto].
        destruct Hu as [->|[-> Hh]]; [by apply elem_of_nil in Hl|].
        apply list_elem_of_singleton in Hl as ->. by apply Hch'.
Qed.

(** C9.  A batch that completes has written [source] into every listing
    object of the batch and has attached a non-empty diff list under
    ['changes'] to every listing object in the updated list; the new and
    the updated lists are made of references to listing objects of the
    batch, in batch order; no other object has been touched. *)
Theorem process_listings_mutates_in_place e source listings w res w' :
  process_listings e source listings w = (Ok res, w') →
  (∀ l, l ∈ listings → stamped source (heap w' l)) ∧
  (∀ l, l ∈ res_updated res → has_changes (heap w' l)) ∧
  res_new res `sublist_of` listings ∧
  res_updated res `sublist_of` listings ∧
  (∀ l, l ∉ listings → heap w' l = heap w l).
Proof.
  unfold process_listings. intros Hrun.
  destruct (ingest e source listings ([], [], []) w)
    as [[[[new upd] ids]|ex] w1] eqn:Hin; [|by simplify_eq].
  destruct (mark_inactive_properties _ _ _ _ _) as [removed_ids db].
  destruct (fetch_removed _ _ _ _ _) as [removed n]. simplify_eq. simpl.
  apply ingest_heap in Hin
    as (Hst & _ & _ & Hframe & n' & u' & -> & -> & Hn & Hu & Hhas).
  by simpl.
Qed.

Lemma process_listings_mutates_in_place_witness :
  let r := process_listings Sample.no_fault "test_source" [0%nat]
                            Sample.repriced_house in
  (∀ l, l ∈ [0%nat] → stamped "test_source" (heap r.2 l)) ∧
  (∀ l, l ∈ res_updated (mk_result [] [0%nat] []) → has_changes (heap r.2 l)) ∧
  res_new (mk_result [] [0%nat] []) `sublist_of` [0%nat] ∧
  res_updated (mk_result [] [0%nat] []) `sublist_of` [0%nat] ∧
  (∀ l, l ∉ [0%nat] → heap r.2 l = heap Sample.repriced_house l).
Proof.
  apply (process_listings_mutates_in_place Sample.no_fault "test_source"
           [0%nat] Sample.repriced_house (mk_result [] [0%nat] [])).
  vm_compute; reflexivity.
Defined.

(** ** Rows through the store operations *)

(** An upsert rewrites rows without touching their identifier, switches
    no row off, and adds at most rows that are active. *)
Lemma upsert_rows now fault db property_data out db' :
  add_or_update_property now fault db property_data = (out, db') →
  ∃ f added,
    properties db' = map f (properties db) ++ added ∧
    (∀ r, r_id (f r) = r_id r) ∧
    (∀ r, f r = r ∨ r_active (f r) = true) ∧
    (∀ r, r ∈ added → r_active r = true).
Proof.
  assert (∃ f added,
            properties db = map f (properties db) ++ added ∧
            (∀ r, r_id (f r) = r_id r) ∧
            (∀ r, f r = r ∨ r_active (f r) = true) ∧
            (∀ r : property_row, r ∈ added → r_active r = true)) as Hsame.
  { exists id, []. rewrite map_id, app_nil_r. split_and!; auto.
    intros r Hr. by apply elem_of_nil in Hr. }
  assert (∀ i g h,
            (∀ r, r_id (g r) = r_id r) → (∀ r, r_active (g r) = true) →
            ∃ f added,
              properties (mk_db (update_where_id i g (properties db)) h)
                = map f (properties db) ++ added ∧
              (∀ r, r_id (f r) = r_id r) ∧
              (∀ r, f r = r ∨ r_active (f r) = true) ∧
              (∀ r : property_row, r ∈ added → r_active r = true)) as Hupd.
  { intros i g h Hg1 Hg2.
    exists (λ r, if sql_eq (r_id r) i then g r else r), [].
    rewrite app_nil_r. split_and!; [done|..].
    - intros r. by destruct (sql_eq (r_id r) i).
    - intros r. destruct (sql_eq (r_id r) i); auto.
    - intros r Hr. by apply elem_of_nil in Hr. }
  unfold add_or_update_property, getitem. intros Hrun.
  destruct (scalars property_data !! "id") as [i|]; [|by simplify_eq/=].
  destruct fault; [by simplify_eq/=|].
  destruct (select_by_id db i) as [existing|].
  - destruct (core_changes (existing_data existing) property_data).
    { simplify_eq. by apply Hupd. }
    destruct (scalars property_data !! "address") as [address|]; [|by simplify_eq/=].
    destruct (scalars property_data !! "city") as [city|]; [|by simplify_eq/=].
    destruct (scalars property_data !! "price") as [price|]; [|by simplify_eq/=].
    destruct (scalars property_data !! "url") as [url|]; [|by simplify_eq/=].
    simpl in Hrun.
    destruct (is_null address || is_null city || is_null price || is_null url);
      simplify_eq; [done|]. by apply Hupd.
  - destruct (scalars property_data !! "address") as [address|]; [|by simplify_eq/=].
    destruct (scalars property_data !! "city") as [city|]; [|by simplify_eq/=].
    destruct (scalars property_data !! "price") as [price|]; [|by simplify_eq/=].
    destruct (scalars property_data !! "url") as [url|]; [|by simplify_eq/=].
    destruct (scalars property_data !! "source") as [src|]; [|by simplify_eq/=].
    simpl in Hrun.
    destruct (is_null address || is_null city || is_null price || is_null url
              || is_null src || is_null i); simplify_eq; [done|].
    exists id. eexists. simpl. rewrite map_id. split_and!; [done|auto..|].
    intros r Hr. by apply list_elem_of_singleton in Hr as ->.
Qed.

(** The sweep rewrites rows without touching their identifier, and only
    rows whose identifier it returns. *)
Lemma sweep_rows now fault db active_ids source removed db' :
  mark_inactive_properties now fault db active_ids source = (removed, db') →
  ∃ f, properties db' = map f (properties db) ∧
       (∀ r, r_id (f r) = r_id r) ∧
       (∀ r, f r = r ∨ r_id r ∈ removed).
Proof.
  intros Hrun. apply sweep_inv in Hrun as (_ & -> & _).
  eexists. split; [done|]. split; intros r; case_bool_decide; auto.
Qed.

Lemma upsert_present_and_active now fault db property_data out db' id :
  add_or_update_property now fault db property_data = (out, db') →
  present_and_active id db → present_and_active id db'.
Proof.
  intros Hrun [(r0 & Hr0 & Hid0) Hact].
  apply upsert_rows in Hrun as (f & added & Hrows & Hfid & Hf & Hadd).
  unfold present_and_active. rewrite Hrows. split.
  - exists (f r0). split; [|by rewrite Hfid].
    apply elem_of_app. left. by apply list_elem_of_fmap_2.
  - intros r Hr Hid. apply elem_of_app in Hr as [Hr|Hr]; [|by apply Hadd].
    apply list_elem_of_fmap in Hr as (r1 & -> & Hr1).
    destruct (Hf r1) as [Heq|?]; [|done]. rewrite Heq in *. by apply Hact.
Qed.

Lemma ingest_present_and_active e source listings acc w acc1 w1 id :
  ingest e source listings acc w = (Ok acc1, w1) →
  present_and_active id (store w) → present_and_active id (store w1).
Proof.
  revert acc w. induction listings as [|x rest IH]; intros acc w Hrun Hpa;
    cbn [ingest] in Hrun; [by simplify_eq|].
  destruct (process_one e source x acc w) as [[acc2|ex] w2] eqn:Hone;
    [|by simplify_eq].
  apply (IH _ _ Hrun). destruct acc as [[new upd] ids].
  apply process_one_inv in Hone as (status & changes & i & Hup & _).
  by eapply upsert_present_and_active.
Qed.

Lemma sweep_present_and_active now fault db active_ids source removed db' id :
  mark_inactive_properties now fault db active_ids source = (removed, db') →
  id ∈ active_ids →
  present_and_active id db → present_and_active id db'.
Proof.
  intros Hrun Hseen [(r0 & Hr0 & Hid0) Hact].
  pose proof (seen_not_removed _ _ _ _ _ _ _ _ Hrun Hseen) as Hnot.
  apply sweep_rows in Hrun as (f & Hrows & Hfid & Hf).
  unfold present_and_active. rewrite Hrows. split.
  - exists (f r0). split; [|by rewrite Hfid]. by apply list_elem_of_fmap_2.
  - intros r Hr Hid. apply list_elem_of_fmap in Hr as (r1 & -> & Hr1).
    rewrite Hfid in Hid. destruct (Hf r1) as [Heq|Hrem].
    + rewrite Heq. by apply Hact.
    + exfalso. apply Hnot. by rewrite <- Hid.
Qed.

Lemma present_and_active_select id db :
  id ≠ SNone → present_and_active id db →
  (r_active <$> select_by_id db id) = Some true.
Proof.
  intros Hnull [(r0 & Hr0 & Hid0) Hact]. unfold select_by_id.
  destruct (List.find (λ r, sql_eq (r_id r) id) (properties db)) as [r|] eqn:Hf.
  - apply find_some in Hf as [Hr He]. apply sql_eq_true in He as [He _].
    simpl. f_equal. apply Hact; [by apply list_elem_of_In|done].
  - exfalso. apply list_elem_of_In in Hr0.
    pose proof (find_none _ _ Hf r0 Hr0) as Hno. simpl in Hno.
    rewrite sql_eq_bool_decide, bool_decide_eq_true_2 in Hno; done.
Qed.

(** ** Reactivation *)

Lemma core_changes_nil existing property_data :
  (∀ f v, f ∈ core_fields → scalars property_data !! f = Some v →
          scalars existing !! f = Some v) →
  core_changes existing property_data = [].
Proof.
  intros Hsame. destruct (core_changes existing property_data) as [|c cs] eqn:Hc;
    [done|].
  assert (c ∈ core_changes existing property_data) as Hin by (rewrite Hc; left).
  apply elem_of_core_changes in Hin as (old & new & Hf & Ho & Hn & Hne & _).
  rewrite (Hsame _ _ Hf Hn) in Ho. by simplify_eq.
Qed.

Lemma upsert_same_core_fields now db property_data id row :
  scalars property_data !! "id" = Some id →
  select_by_id db id = Some row →
  (∀ f v, f ∈ core_fields → scalars property_data !! f = Some v →
          scalars (existing_data row) !! f = Some v) →
  add_or_update_property now false db property_data
    = (Ok ("unchanged", []),
       mk_db (update_where_id id (set_last_seen now) (properties db))
             (property_history db)).
Proof.
  intros Hid Hsel Hsame. unfold add_or_update_property, getitem.
  by rewrite Hid, Hsel, core_changes_nil.
Qed.

Lemma select_by_id_Some db id row :
  select_by_id db id = Some row →
  row ∈ properties db ∧ r_id row = id ∧ id ≠ SNone.
Proof.
  unfold select_by_id. intros H. apply find_some in H as [Hin He].
  apply sql_eq_true in He as [<- ?]. split; [by apply list_elem_of_In|done].
Qed.

Lemma set_last_seen_present_and_active now db id row h :
  select_by_id db id = Some row →
  present_and_active id
    (mk_db (update_where_id id (set_last_seen now) (properties db)) h).
Proof.
  intros Hsel. apply select_by_id_Some in Hsel as (Hin & Hid & Hnull).
  unfold present_and_active, update_where_id; simpl. split.
  - exists (set_last_seen now row). split; [|done].
    apply list_elem_of_fmap. exists row. split; [|done].
    by rewrite sql_eq_bool_decide, bool_decide_eq_true_2.
  - intros r Hr Hrid. apply list_elem_of_fmap in Hr as (r1 & -> & _).
    destruct (sql_eq (r_id r1) id) eqn:He; [done|].
    rewrite sql_eq_bool_decide, bool_decide_eq_false in He; done.
Qed.

(** A snapshot of the batch whose identifier has a stored, inactive record
    when its turn comes and whose core fields all equal the stored ones is
    answered [unchanged]; when the batch is done the record is active, and
    the listing object is in neither list. *)
Lemma reactivated_listing
    e source pre listing post w acc1 w1 id row res w' :
  ingest e source pre ([], [], []) w = (Ok acc1, w1) →
  scalars (heap w listing) !! "id" = Some id →
  select_by_id (store w1) id = Some row →
  r_active row = false →
  (∀ f v, f ∈ core_fields → scalars (heap w listing) !! f = Some v →
          scalars (existing_data row) !! f = Some v) →
  faulty e (calls w1) = false →
  listing ∉ pre → listing ∉ post →
  process_listings e source (pre ++ listing :: post) w = (Ok res, w') →
  (add_or_update_property (clock e (calls w1)) (faulty e (calls w1)) (store w1)
     (setitem (heap w1 listing) "source" (SStr source))).1
    = Ok ("unchanged", []) ∧
  (r_active <$> select_by_id (store w') id) = Some true ∧
  (listing ∉ res_new res) ∧ (listing ∉ res_updated res).
Proof.
  intros Hpre Hid Hsel Hinactive Hsame Hfault Hnpre Hnpost Hrun.
  set (d := setitem (heap w1 listing) "source" (SStr source)).
  assert (∀ k, k ≠ "source" → k ≠ "changes" →
               scalars d !! k = scalars (heap w listing) !! k) as Hd.
  { intros k Hk1 Hk2. unfold d, setitem; simpl.
    rewrite lookup_insert_ne by done. by eapply ingest_scalars. }
  assert (add_or_update_property (clock e (calls w1)) false (store w1) d
          = (Ok ("unchanged", []),
             mk_db (update_where_id id (set_last_seen (clock e (calls w1)))
                                    (properties (store w1)))
                   (property_history (store w1)))) as Hup.
  { apply (upsert_same_core_fields _ _ _ _ row); [by rewrite Hd|done|].
    intros f v Hf Hv. apply Hsame; [done|]. rewrite <- Hd; [done|..].
    all: intros ->; unfold core_fields in Hf;
      repeat (apply elem_of_cons in Hf as [?|Hf]; [done|]);
      by apply elem_of_nil in Hf. }
  rewrite Hfault. split; [by rewrite Hup|].
  unfold process_listings in Hrun. rewrite ingest_app, Hpre in Hrun.
  cbn [ingest] in Hrun. destruct acc1 as [[new1 upd1] ids1].
  unfold process_one in Hrun. rewrite fn_lookup_insert, Hfault in Hrun.
  fold d in Hrun. rewrite Hup in Hrun. unfold getitem in Hrun.
  rewrite Hd, Hid in Hrun by done.
  rewrite bool_decide_eq_false_2 in Hrun by done.
  rewrite (bool_decide_eq_false_2 ("unchanged" = "updated")) in Hrun by done.
  cbn [andb] in Hrun.
  match type of Hrun with
  | context [ingest e source post ?a ?w2] =>
      destruct (ingest e source post a w2) as [[[[newf updf] idsf]|ex] w3] eqn:Hpost
  end; [|by simplify_eq].
  destruct (mark_inactive_properties _ _ _ _ _) as [removed_ids db] eqn:Hsweep.
  destruct (fetch_removed _ _ _ _ _) as [removed n]. simplify_eq. simpl.
  pose proof (select_by_id_Some _ _ _ Hsel) as (_ & _ & Hnull).
  apply ingest_heap in Hpre
    as (_ & _ & _ & _ & n1 & u1 & Hn1 & Hu1 & Hs1 & Hs1' & _).
  simpl in Hn1, Hu1. subst new1 upd1.
  pose proof (ingest_heap _ _ _ _ _ _ _ _ _ _ _ Hpost)
    as (_ & _ & _ & _ & n3 & u3 & -> & -> & Hs3 & Hs3' & _).
  pose proof (ingest_active_ids _ _ _ _ _ _ _ _ _ _ _ Hpost)
    as (seen & -> & _).
  split_and!.
  - apply present_and_active_select; [done|].
    eapply sweep_present_and_active; [exact Hsweep| |].
    + rewrite !elem_of_app, list_elem_of_singleton. auto.
    + eapply ingest_present_and_active; [exact Hpost|]. simpl.
      by eapply set_last_seen_present_and_active.
  - intros Hin. apply elem_of_app in Hin as [Hin|Hin].
    + apply Hnpre. by eapply elem_of_sublist.
    + apply Hnpost. by eapply elem_of_sublist.
  - intros Hin. apply elem_of_app in Hin as [Hin|Hin].
    + apply Hnpre. by eapply elem_of_sublist.
    + apply Hnpost. by eapply elem_of_sublist.
Qed.

(** ** Upserts that report [new] or [updated] *)

Lemma upsert_new_inv now fault db property_data changes db' :
  add_or_update_property now fault db property_data = (Ok ("new", changes), db') →
  ∃ id address city price url source,
    fault = false ∧
    scalars property_data !! "id" = Some id ∧
    scalars property_data !! "address" = Some address ∧
    scalars property_data !! "city" = Some city ∧
    scalars property_data !! "price" = Some price ∧
    scalars property_data !! "url" = Some url ∧
    scalars property_data !! "source" = Some source ∧
    select_by_id db id = None ∧
    is_null address || is_null city || is_null price || is_null url
      || is_null source || is_null id = false ∧
    changes = [] ∧
    db' = mk_db (properties db ++
                   [mk_row id address city price
                           (get property_data "area" (SInt 0))
                           (get property_data "rooms" (SInt 0))
                           (get property_data "property_type" (SStr "Onbekend"))
                           url source now now now
                           (extra_data_of property_data) true])
                (property_history db ++ [new_property_row now id address city]).
Proof.
  unfold add_or_update_property, getitem. intros Hrun.
  destruct (scalars property_data !! "id") as [i|]; [|by simplify_eq/=].
  destruct fault; [by simplify_eq/=|].
  destruct (select_by_id db i) as [existing|] eqn:Hsel.
  - destruct (core_changes (existing_data existing) property_data);
      [by simplify_eq/=|].
    destruct (scalars property_data !! "address") as [address|]; [|by simplify_eq/=].
    destruct (scalars property_data !! "city") as [city|]; [|by simplify_eq/=].
    destruct (scalars property_data !! "price") as [price|]; [|by simplify_eq/=].
    destruct (scalars property_data !! "url") as [url|]; [|by simplify_eq/=].
    simpl in Hrun.
    by destruct (is_null address || is_null city || is_null price || is_null url);
      simplify_eq.
  - destruct (scalars property_data !! "address") as [address|]; [|by simplify_eq/=].
    destruct (scalars property_data !! "city") as [city|]; [|by simplify_eq/=].
    destruct (scalars property_data !! "price") as [price|]; [|by simplify_eq/=].
    destruct (scalars property_data !! "url") as [url|]; [|by simplify_eq/=].
    destruct (scalars property_data !! "source") as [src|]; [|by simplify_eq/=].
    simpl in Hrun.
    destruct (is_null address || is_null city || is_null price || is_null url
              || is_null src || is_null i) eqn:Hnull; simplify_eq.
    exists i, address, city, price, url, src. by split_and!.
Qed.

Lemma upsert_updated_inv now fault db property_data changes db' :
  add_or_update_property now fault db property_data
    = (Ok ("updated", changes), db') →
  ∃ id existing address city price url,
    fault = false ∧
    scalars property_data !! "id" = Some id ∧
    select_by_id db id = Some existing ∧
    scalars property_data !! "address" = Some address ∧
    scalars property_data !! "city" = Some city ∧
    scalars property_data !! "price" = Some price ∧
    scalars property_data !! "url" = Some url ∧
    is_null address || is_null city || is_null price || is_null url = false ∧
    changes = core_changes (existing_data existing) property_data ∧
    changes ≠ [] ∧
    db' = mk_db (update_where_id id
                   (set_all_fields now address city price
                      (get property_data "area" (SInt 0))
                      (get property_data "rooms" (SInt 0))
                      (get property_data "property_type" (SStr "Onbekend"))
                      url (extra_data_of property_data))
                   (properties db))
                (property_history db ++ map (changed_row now id) changes).
Proof.
  unfold add_or_update_property, getitem. intros Hrun.
  destruct (scalars property_data !! "id") as [i|]; [|by simplify_eq/=].
  destruct fault; [by simplify_eq/=|].
  destruct (select_by_id db i) as [existing|] eqn:Hsel.
  - destruct (core_changes (existing_data existing) property_data) eqn:Hc;
      [by simplify_eq/=|].
    destruct (scalars property_data !! "address") as [address|]; [|by simplify_eq/=].
    destruct (scalars property_data !! "city") as [city|]; [|by simplify_eq/=].
    destruct (scalars property_data !! "price") as [price|]; [|by simplify_eq/=].
    destruct (scalars property_data !! "url") as [url|]; [|by simplify_eq/=].
    simpl in Hrun.
    destruct (is_null address || is_null city || is_null price || is_null url)
      eqn:Hnull; simplify_eq.
    exists i, existing, address, city, price, url. by split_and!.
  - destruct (scalars property_data !! "address") as [address|]; [|by simplify_eq/=].
    destruct (scalars property_data !! "city") as [city|]; [|by simplify_eq/=].
    destruct (scalars property_data !! "price") as [price|]; [|by simplify_eq/=].
    destruct (scalars property_data !! "url") as [url|]; [|by simplify_eq/=].
    destruct (scalars property_data !! "source") as [src|]; [|by simplify_eq/=].
    simpl in Hrun.
    by destruct (is_null address || is_null city || is_null price || is_null url
                 || is_null src || is_null i); simplify_eq.
Qed.

Lemma find_app_last {A} (p : A → bool) l x :
  List.find p l = None → p x = true → List.find p (l ++ [x]) = Some x.
Proof.
  induction l as [|a l IH]; simpl; intros Hnone Hx; [by rewrite Hx|].
  destruct (p a); [done|]. by apply IH.
Qed.

Lemma select_by_id_update id f rows h h' :
  (∀ r, r_id (f r) = r_id r) →
  select_by_id (mk_db (update_where_id id f rows) h) id
    = f <$> select_by_id (mk_db rows h') id.
Proof.
  intros Hf. unfold select_by_id, update_where_id; simpl.
  induction rows as [|r rows IH]; [done|]. simpl.
  destruct (sql_eq (r_id r) id) eqn:He.
  - by rewrite Hf, He.
  - by rewrite He.
Qed.

Lemma extra_data_of_setitem property_data k v :
  k ∈ table_keys →
  extra_data_of (setitem property_data k v) = extra_data_of property_data.
Proof.
  intros Hk. unfold extra_data_of, setitem; simpl. f_equal.
  apply map_filter_insert_not. intros y Hn. by apply Hn.
Qed.

Lemma optional_defaults_inv k dflt :
  (k, dflt) ∈ optional_defaults →
  (k = "area" ∧ dflt = SInt 0) ∨ (k = "rooms" ∧ dflt = SInt 0) ∨
  (k = "property_type" ∧ dflt = SStr "Onbekend").
Proof.
  unfold optional_defaults. intros H.
  repeat (apply elem_of_cons in H as [[= -> ->]|H]); auto.
  by apply elem_of_nil in H.
Qed.

Lemma upsert_run_new now db property_data id address city price url source :
  scalars property_data !! "id" = Some id →
  scalars property_data !! "address" = Some address →
  scalars property_data !! "city" = Some city →
  scalars property_data !! "price" = Some price →
  scalars property_data !! "url" = Some url →
  scalars property_data !! "source" = Some source →
  select_by_id db id = None →
  is_null address || is_null city || is_null price || is_null url
    || is_null source || is_null id = false →
  add_or_update_property now false db property_data
    = (Ok ("new", []),
       mk_db (properties db ++
                [mk_row id address city price
                        (get property_data "area" (SInt 0))
                        (get property_data "rooms" (SInt 0))
                        (get property_data "property_type" (SStr "Onbekend"))
                        url source now now now
                        (extra_data_of property_data) true])
             (property_history db ++ [new_property_row now id address city])).
Proof.
  intros Hid Ha Hc Hp Hu Hs Hsel Hnull.
  unfold add_or_update_property, getitem.
  rewrite Hid, Hsel, Ha, Hc, Hp, Hu, Hs. simpl. by rewrite Hnull.
Qed.

Lemma upsert_run_updated now db property_data id existing address city price url :
  scalars property_data !! "id" = Some id →
  select_by_id db id = Some existing →
  scalars property_data !! "address" = Some address →
  scalars property_data !! "city" = Some city →
  scalars property_data !! "price" = Some price →
  scalars property_data !! "url" = Some url →
  is_null address || is_null city || is_null price || is_null url = false →
  core_changes (existing_data existing) property_data ≠ [] →
  add_or_update_property now false db property_data
    = (Ok ("updated", core_changes (existing_data existing) property_data),
       mk_db (update_where_id id
                (set_all_fields now address city price
                   (get property_data "area" (SInt 0))
                   (get property_data "rooms" (SInt 0))
                   (get property_data "property_type" (SStr "Onbekend"))
                   url (extra_data_of property_data))
                (properties db))
             (property_history db ++
                map (changed_row now id)
                    (core_changes (existing_data existing) property_data))).
Proof.
  intros Hid Hsel Ha Hc Hp Hu Hnull Hch.
  unfold add_or_update_property, getitem. rewrite Hid, Hsel.
  destruct (core_changes (existing_data existing) property_data); [done|].
  rewrite Ha, Hc, Hp, Hu. simpl. by rewrite Hnull.
Qed.

Lemma is_null_last_false a b : a || is_null b = false → b ≠ SNone.
Proof.
  intros H. apply orb_false_iff in H as [_ H].
  by apply bool_decide_eq_false in H.
Qed.

Lemma sql_eq_refl id : id ≠ SNone → sql_eq id id = true.
Proof. intros H. by rewrite sql_eq_bool_decide, bool_decide_eq_true_2. Qed.

(** C10.  When the snapshot has no [area], [rooms] or [property_type], an
    upsert that creates or updates the record stores 0, 0 or ['Onbekend']
    for it: [get_property] returns that value, and the table of records is
    the one that the same upsert leaves when the snapshot holds the default
    value under that key. *)
Theorem omitted_optional_field_stored_as_default
    now fault db property_data k dflt id status changes db' :
  (k, dflt) ∈ optional_defaults →
  scalars property_data !! k = None →
  scalars property_data !! "id" = Some id →
  add_or_update_property now fault db property_data = (Ok (status, changes), db') →
  status = "new" ∨ status = "updated" →
  (∃ view, get_property false db' id = Some view ∧
           scalars view !! k = Some dflt) ∧
  properties (add_or_update_property now fault db
                                     (setitem property_data k dflt)).2
    = properties db'.
Proof.
  intros Hk Hnone Hid Hrun Hstatus.
  assert (k ∈ table_keys) as Hkey.
  { apply optional_defaults_inv in Hk as [[-> _]|[[-> _]|[-> _]]];
      apply (bool_decide_unpack _); vm_compute; exact I. }
  assert (∀ j, j ≠ k →
            scalars (setitem property_data k dflt) !! j
            = scalars property_data !! j) as Hother.
  { intros j Hj. unfold setitem; simpl. by rewrite lookup_insert_ne. }
  assert (∀ j d, get (setitem property_data k dflt) j d
                 = if bool_decide (j = k) then dflt else get property_data j d)
    as Hget.
  { intros j d. unfold get. case_bool_decide as Hj.
    - subst j. unfold setitem; simpl. by rewrite lookup_insert_eq.
    - by rewrite Hother. }
  assert (∀ r, r_area r = get property_data "area" (SInt 0) →
               r_rooms r = get property_data "rooms" (SInt 0) →
               r_property_type r
                 = get property_data "property_type" (SStr "Onbekend") →
               r_extra_data r = extra_data_of property_data →
               scalars (existing_data r) !! k = Some dflt) as Hview.
  { intros r Harea Hrooms Htype Hextra.
    rewrite existing_data_column
      by (rewrite Hextra; by apply extra_data_of_table_key).
    unfold row_columns.
    apply optional_defaults_inv in Hk as [[-> ->]|[[-> ->]|[-> ->]]].
    - rewrite Harea. unfold get. by rewrite Hnone.
    - rewrite Hrooms. unfold get. by rewrite Hnone.
    - rewrite Htype. unfold get. by rewrite Hnone. }
  assert (get property_data k dflt = dflt) as Hdflt.
  { unfold get. by rewrite Hnone. }
  assert (∀ j, j ∈ ["id"; "address"; "city"; "price"; "url"; "source"] →
               j ≠ k) as Hdistinct.
  { intros j Hj ->.
    apply optional_defaults_inv in Hk as [[-> _]|[[-> _]|[-> _]]];
      repeat (apply elem_of_cons in Hj as [?|Hj]; [done|]);
      by apply elem_of_nil in Hj. }
  assert (∀ j, j ∈ ["id"; "address"; "city"; "price"; "url"; "source"] →
            scalars (setitem property_data k dflt) !! j
            = scalars property_data !! j) as Hman.
  { intros j Hj. by apply Hother, Hdistinct. }
  assert (get (setitem property_data k dflt) "area" (SInt 0)
            = get property_data "area" (SInt 0) ∧
          get (setitem property_data k dflt) "rooms" (SInt 0)
            = get property_data "rooms" (SInt 0) ∧
          get (setitem property_data k dflt) "property_type" (SStr "Onbekend")
            = get property_data "property_type" (SStr "Onbekend"))
    as (Hg1 & Hg2 & Hg3).
  { rewrite !Hget.
    apply optional_defaults_inv in Hk as [[-> ->]|[[-> ->]|[-> ->]]];
      split_and!; case_bool_decide; try done; unfold get; by rewrite Hnone. }
  destruct Hstatus as [-> | ->].
  - apply upsert_new_inv in Hrun
      as (i & address & city & price & url & src & -> & Hi & Ha & Hc & Hp & Hu
          & Hs & Hsel & Hnull & -> & ->).
    assert (i = id) as -> by congruence.
    pose proof (is_null_last_false _ _ Hnull) as Hidnull. split.
    + eexists. split.
      * unfold get_property, select_by_id; simpl.
        rewrite (find_app_last _ _ _ Hsel); [done|]. by apply sql_eq_refl.
      * by apply Hview.
    + rewrite (upsert_run_new now db (setitem property_data k dflt)
                 id address city price url src); simpl;
        rewrite ?Hman; try done; try (repeat constructor).
      by rewrite Hg1, Hg2, Hg3, extra_data_of_setitem.
  - apply upsert_updated_inv in Hrun
      as (i & existing & address & city & price & url & -> & Hi & Hsel & Ha
          & Hc & Hp & Hu & Hnull & -> & Hch & ->).
    assert (i = id) as -> by congruence. split.
    + eexists. split.
      * unfold get_property.
        rewrite (select_by_id_update _ _ _ _ (property_history db)) by done.
        destruct db as [rows hist]; simpl in *. by rewrite Hsel.
      * by apply Hview.
    + rewrite (upsert_run_updated now db (setitem property_data k dflt)
                 id existing address city price url); simpl;
        rewrite ?Hman; try done; try (repeat constructor).
      * by rewrite Hg1, Hg2, Hg3, extra_data_of_setitem.
      * destruct (core_changes (existing_data existing) property_data)
          as [|c cs] eqn:Hcc; [done|].
        assert (c ∈ core_changes (existing_data existing) property_data) as Hin
          by (rewrite Hcc; left).
        apply elem_of_core_changes in Hin as (old & new & Hf & Ho & Hn & Hne & Hceq).
        intros Hnil.
        assert (c ∈ core_changes (existing_data existing)
                                 (setitem property_data k dflt)) as Hin'.
        { apply elem_of_core_changes. exists old, new. split_and!; try done.
          rewrite Hother; [done|]. intros Heq. rewrite Heq in Hn. congruence. }
        rewrite Hnil in Hin'. by apply elem_of_nil in Hin'.
Qed.

Lemma omitted_optional_field_stored_as_default_witness :
  let db' := (add_or_update_property "t0" false empty_db
                                     Sample.house_area_unknown).2 in
  (∃ view, get_property false db' (SStr "test_property_2") = Some view ∧
           scalars view !! "area" = Some (SInt 0)) ∧
  properties (add_or_update_property "t0" false empty_db
                (setitem Sample.house_area_unknown "area" (SInt 0))).2
    = properties db'.
Proof.
  apply (omitted_optional_field_stored_as_default "t0" false empty_db
           Sample.house_area_unknown "area" (SInt 0) (SStr "test_property_2")
           "new" []).
  - unfold optional_defaults. left.
  - vm_compute; reflexivity.
  - vm_compute; reflexivity.
  - vm_compute; reflexivity.
  - by left.
Defined.

(** ** Idempotence *)

Lemma required_text o :
  required is_text o = true → ∃ s, o = Some (SStr s).
Proof. destruct o as [[]|]; try done. by eexists. Qed.

Lemma required_int64 o :
  required is_int64 o = true → ∃ n, o = Some (SInt n).
Proof. destruct o as [[]|]; try done. by eexists. Qed.

Lemma filter_none {A} (P : A → Prop) `{∀ x, Decision (P x)} (l : list A) :
  (∀ x, x ∈ l → ¬ P x) → filter P l = [].
Proof.
  induction l as [|a l IH]; intros Hl; [done|].
  rewrite filter_cons_False by (apply Hl; left).
  apply IH. intros x Hx. apply Hl. by right.
Qed.

Lemma well_typed_inv d :
  well_typed d = true →
  ∃ id address city price url source,
    scalars d !! "id" = Some (SStr id) ∧
    scalars d !! "address" = Some (SStr address) ∧
    scalars d !! "city" = Some (SStr city) ∧
    scalars d !! "price" = Some (SInt price) ∧
    scalars d !! "url" = Some (SStr url) ∧
    scalars d !! "source" = Some (SStr source).
Proof.
  unfold well_typed. rewrite !andb_true_iff.
  intros ((((((((Hi & Ha) & Hc) & Hp) & Hu) & Hs) & _) & _) & _).
  apply required_text in Hi as (i & ->). apply required_text in Ha as (a & ->).
  apply required_text in Hc as (c & ->). apply required_int64 in Hp as (p & ->).
  apply required_text in Hu as (u & ->). apply required_text in Hs as (s & ->).
  by exists i, a, c, p, u, s.
Qed.

(** C7.  Upserting one well-typed snapshot twice into a store that knows
    nothing of its identifier, with no persistence fault, returns [new] and
    then [unchanged], and the history then holds one row for that
    identifier, the [new_property] row of the first call. *)
Theorem upsert_twice_created_then_unchanged now now' db property_data id :
  well_typed property_data = true →
  scalars property_data !! "id" = Some id →
  select_by_id db id = None →
  (∀ h, h ∈ property_history db → h_property_id h ≠ id) →
  let first := add_or_update_property now false db property_data in
  let second := add_or_update_property now' false first.2 property_data in
  first.1 = Ok ("new", []) ∧
  second.1 = Ok ("unchanged", []) ∧
  ∃ created,
    filter (λ h, h_property_id h = id) (property_history second.2) = [created] ∧
    h_change_type created = "new_property" ∧
    h_change_date created = now.
Proof.
  intros Hwt Hid Hsel Hhist.
  apply well_typed_inv in Hwt
    as (i & address & city & price & url & src & Hi & Ha & Hc & Hp & Hu & Hs).
  assert (id = SStr i) as -> by congruence.
  intros first second.
  assert (first = (Ok ("new", []),
            mk_db (properties db ++
                     [mk_row (SStr i) (SStr address) (SStr city) (SInt price)
                             (get property_data "area" (SInt 0))
                             (get property_data "rooms" (SInt 0))
                             (get property_data "property_type" (SStr "Onbekend"))
                             (SStr url) (SStr src) now now now
                             (extra_data_of property_data) true])
                  (property_history db ++
                     [new_property_row now (SStr i) (SStr address) (SStr city)])))
    as Hfirst.
  { by apply upsert_run_new. }
  set (row := mk_row (SStr i) (SStr address) (SStr city) (SInt price)
                     (get property_data "area" (SInt 0))
                     (get property_data "rooms" (SInt 0))
                     (get property_data "property_type" (SStr "Onbekend"))
                     (SStr url) (SStr src) now now now
                     (extra_data_of property_data) true) in *.
  set (db1 := mk_db (properties db ++ [row])
                    (property_history db ++
                       [new_property_row now (SStr i) (SStr address) (SStr city)]))
    in *.
  assert (add_or_update_property now' false db1 property_data
          = (Ok ("unchanged", []),
             mk_db (update_where_id (SStr i) (set_last_seen now') (properties db1))
                   (property_history db1))) as Hsecond.
  { apply (upsert_same_core_fields _ _ _ _ row); [done| |].
    - unfold select_by_id in *. unfold db1. cbn [properties].
      apply find_app_last; [exact Hsel|]. by apply sql_eq_refl.
    - intros f v Hf Hv.
      rewrite existing_data_column
        by (simpl; by apply extra_data_of_table_key, core_fields_table_keys).
      unfold row_columns, row, core_fields in *; simpl.
      repeat (apply elem_of_cons in Hf as [->|Hf]);
        [..|by apply elem_of_nil in Hf].
      all: try (unfold get; by rewrite Hv).
      all: by simplify_eq. }
  unfold second. rewrite Hfirst. cbn [fst snd]. rewrite Hsecond. cbn [fst snd].
  split; [done|]. split; [done|].
  exists (new_property_row now (SStr i) (SStr address) (SStr city)).
  split; [|done]. unfold db1; cbn [property_history].
  rewrite list.filter_app, filter_cons_True, filter_nil by done.
  by rewrite filter_none.
Qed.

Lemma upsert_twice_created_then_unchanged_witness :
  let first := add_or_update_property "t0" false empty_db Sample.house in
  let second := add_or_update_property "t1" false first.2 Sample.house in
  first.1 = Ok ("new", []) ∧
  second.1 = Ok ("unchanged", []) ∧
  ∃ created,
    filter (λ h, h_property_id h = SStr "test_property_2")
           (property_history second.2) = [created] ∧
    h_change_type created = "new_property" ∧
    h_change_date created = "t0".
Proof.
  apply (upsert_twice_created_then_unchanged "t0" "t1" empty_db Sample.house
           (SStr "test_property_2")).
  - vm_compute; reflexivity.
  - vm_compute; reflexivity.
  - reflexivity.
  - intros h Hh. by apply elem_of_nil in Hh.
Defined.

(** ** The criteria filter *)

Lemma existsb_str_in cs city :
  existsb (λ c, str_in (lower c) (lower city)) cs = true ↔
  ∃ c, c ∈ cs ∧ str_in (lower c) (lower city) = true.
Proof.
  rewrite existsb_exists. split; intros (c & Hc & H); exists c;
    (split; [by apply list_elem_of_In|done]).
Qed.

(** C8 (as amended).  For a record whose price and area, when present, are
    integers and whose city, when a city list is configured, is a string,
    [matches] returns a boolean, and it returns [True] if and only if the
    price lies in [min_price, max_price], the area is at least [min_area],
    the city contains one of the configured cities, case ignored, when the
    city list is not empty, and the property type is one of the configured
    types when the type list is not empty.  An absent price or area counts
    as 0, an absent city or type as the empty string.  The range that
    [__init__] takes when none is given is 0 to 10000000. *)
Theorem matches_iff_all_criteria self property_data price area :
  get property_data "price" (SInt 0) = SInt price →
  get property_data "area" (SInt 0) = SInt area →
  (cities self ≠ [] → ∃ city, get property_data "city" (SStr "") = SStr city) →
  (∃ b, matches self property_data = Ok b ∧
        (b = true ↔
         price_in_range self price ∧ min_area self ≤ area ∧
         city_selected self property_data ∧
         type_selected self property_data)) ∧
  PropertyFilter_init None None None None None = mk_filter 0 10000000 0 [] [].
Proof.
  intros Hprice Harea Hcity. split; [|done].
  unfold matches, price_in_range, city_selected, type_selected.
  rewrite Hprice, Harea. simpl.
  destruct (price <? min_price self) eqn:Hlo; simpl.
  { exists false. split; [done|]. split; [done|]. intros [[? ?] _]. lia. }
  destruct (price >? max_price self) eqn:Hhi; simpl.
  { exists false. split; [done|]. split; [done|]. intros [[? ?] _]. lia. }
  destruct (area <? min_area self) eqn:Hsmall; simpl.
  { exists false. split; [done|]. split; [done|]. intros (_ & ? & _). lia. }
  assert (min_price self ≤ price ≤ max_price self ∧ min_area self ≤ area)
    as [[Hmin_price Hmax_price] Hmin] by lia.
  destruct (cities self) as [|c0 cs] eqn:Hcs; simpl.
  - destruct (property_types self) as [|t0 ts] eqn:Hts.
    + exists true. split; [done|]. split; [|done]. intros _. split_and!; auto.
    + case_bool_decide as Hty.
      * exists true. split; [done|]. split; [|done]. intros _.
        split_and!; auto.
      * exists false. split; [done|]. split; [done|].
        intros (_ & _ & _ & [?|?]); done.
  - destruct (Hcity ltac:(done)) as (city & Hc). rewrite Hc. simpl.
    destruct (str_in (lower c0) (lower city)
              || existsb (λ c, str_in (lower c) (lower city)) cs) eqn:Hany;
      simpl.
    + assert (∃ c, c ∈ c0 :: cs ∧ str_in (lower c) (lower city) = true)
        as (c & Hin & Hsub).
      { apply orb_true_iff in Hany as [H|H].
        - exists c0. split; [left|done].
        - apply existsb_str_in in H as (c & ? & ?). exists c.
          split; [by right|done]. }
      destruct (property_types self) as [|t0 ts] eqn:Hts.
      * exists true. split; [done|]. split; [|done]. intros _.
        split_and!; auto. right. by exists c, city.
      * case_bool_decide as Hty.
        -- exists true. split; [done|]. split; [|done]. intros _.
           split_and!; auto. right. by exists c, city.
        -- exists false. split; [done|]. split; [done|].
           intros (_ & _ & _ & [?|?]); done.
    + exists false. split; [done|]. split; [done|].
      intros (_ & _ & [?|(c & city' & Hin & Hc' & Hsub)] & _); [done|].
      assert (city' = city) as -> by congruence.
      apply orb_false_iff in Hany as [H0 Hrest].
      apply elem_of_cons in Hin as [->|Hin]; [congruence|].
      assert (existsb (λ c, str_in (lower c) (lower city)) cs = true) as Ht.
      { apply existsb_str_in. by exists c. }
      congruence.
Qed.

Lemma matches_iff_all_criteria_witness :
  (∃ b, matches Sample.test_filter Sample.flat = Ok b ∧
        (b = true ↔
         price_in_range Sample.test_filter 150000 ∧
         min_area Sample.test_filter ≤ 75 ∧
         city_selected Sample.test_filter Sample.flat ∧
         type_selected Sample.test_filter Sample.flat)) ∧
  PropertyFilter_init None None None None None = mk_filter 0 10000000 0 [] [].
Proof.
  apply (matches_iff_all_criteria Sample.test_filter Sample.flat 150000 75).
  - vm_compute; reflexivity.
  - vm_compute; reflexivity.
  - intros _. exists "Rotterdam". vm_compute; reflexivity.
Defined.

(** C8 as the specification words it fails: with no criterion configured
    every clause of the specified predicate holds for the record, whose
    price is 12500000, yet [matches] returns [False], because the price
    range of a filter built without bounds ends at 10000000. *)
Lemma default_price_range_counterexample :
  matches_as_specified None None None None None Sample.villa ∧
  matches (PropertyFilter_init None None None None None) Sample.villa = Ok false.
Proof.
  split; [|vm_compute; reflexivity].
  unfold matches_as_specified. split_and!.
  - exists 12500000. split; [vm_compute; reflexivity|]. by split.
  - exists 400. split; [vm_compute; reflexivity|]. simpl. lia.
  - by left.
  - by left.
Qed.

(** * Further properties *)

(** ** Every way an upsert can end *)

Lemma upsert_cases now fault db property_data out db' :
  add_or_update_property now fault db property_data = (out, db') →
  (db' = db ∧ (out = Ok ("error", []) ∨ ∃ k, out = Raise (KeyError k))) ∨
  (∃ id existing,
     scalars property_data !! "id" = Some id ∧
     select_by_id db id = Some existing ∧
     core_changes (existing_data existing) property_data = [] ∧
     out = Ok ("unchanged", []) ∧
     db' = mk_db (update_where_id id (set_last_seen now) (properties db))
                 (property_history db)) ∨
  (∃ id existing address city price url,
     scalars property_data !! "id" = Some id ∧
     select_by_id db id = Some existing ∧
     scalars property_data !! "address" = Some address ∧
     scalars property_data !! "city" = Some city ∧
     scalars property_data !! "price" = Some price ∧
     scalars property_data !! "url" = Some url ∧
     is_null address || is_null city || is_null price || is_null url = false ∧
     core_changes (existing_data existing) property_data ≠ [] ∧
     out = Ok ("updated", core_changes (existing_data existing) property_data) ∧
     db' = mk_db (update_where_id id
                    (set_all_fields now address city price
                       (get property_data "area" (SInt 0))
                       (get property_data "rooms" (SInt 0))
                       (get property_data "property_type" (SStr "Onbekend"))
                       url (extra_data_of property_data))
                    (properties db))
                 (property_history db ++
                    map (changed_row now id)
                        (core_changes (existing_data existing) property_data))) ∨
  (∃ id address city price url source,
     scalars property_data !! "id" = Some id ∧
     select_by_id db id = None ∧
     scalars property_data !! "address" = Some address ∧
     scalars property_data !! "city" = Some city ∧
     scalars property_data !! "price" = Some price ∧
     scalars property_data !! "url" = Some url ∧
     scalars property_data !! "source" = Some source ∧
     is_null address || is_null city || is_null price || is_null url
       || is_null source || is_null id = false ∧
     out = Ok ("new", []) ∧
     db' = mk_db (properties db ++
                    [mk_row id address city price
                            (get property_data "area" (SInt 0))
                            (get property_data "rooms" (SInt 0))
                            (get property_data "property_type" (SStr "Onbekend"))
                            url source now now now
                            (extra_data_of property_data) true])
                 (property_history db ++ [new_property_row now id address city])).
Proof.
  intros Hrun.
  destruct out as [[status changes]|ex].
  - destruct (decide (status = "error")) as [->|Herr].
    + left. unfold add_or_update_property, getitem in Hrun.
      destruct (scalars property_data !! "id") as [i|]; [|by simplify_eq/=].
      destruct fault; [simplify_eq; auto|].
      destruct (select_by_id db i) as [existing|].
      * destruct (core_changes (existing_data existing) property_data);
          [by simplify_eq/=|].
        destruct (scalars property_data !! "address"); [|by simplify_eq/=].
        destruct (scalars property_data !! "city"); [|by simplify_eq/=].
        destruct (scalars property_data !! "price"); [|by simplify_eq/=].
        destruct (scalars property_data !! "url"); [|by simplify_eq/=].
        simpl in Hrun. case_match; simplify_eq; auto.
      * destruct (scalars property_data !! "address"); [|by simplify_eq/=].
        destruct (scalars property_data !! "city"); [|by simplify_eq/=].
        destruct (scalars property_data !! "price"); [|by simplify_eq/=].
        destruct (scalars property_data !! "url"); [|by simplify_eq/=].
        destruct (scalars property_data !! "source"); [|by simplify_eq/=].
        simpl in Hrun. case_match; simplify_eq; auto.
    + destruct (scalars property_data !! "id") as [id|] eqn:Hid.
      2:{ unfold add_or_update_property, getitem in Hrun. rewrite Hid in Hrun.
          by simplify_eq. }
      destruct (select_by_id db id) as [existing|] eqn:Hsel.
      * destruct (upsert_existing_inv _ _ _ _ _ _ _ _ _ Hid Hsel Hrun Herr)
          as (-> & Hhist & [(-> & Hnil & Hrows)|(-> & Hne & a & c & p & u & Ha & Hc & Hp & Hu & Hrows)]).
        -- right; left. exists id, existing. rewrite Hnil in *.
           split_and!; try done. destruct db'; simpl in *.
           rewrite app_nil_r in Hhist. by subst.
        -- right; right; left. exists id, existing, a, c, p, u.
           apply upsert_updated_inv in Hrun
             as (i' & ex' & a' & c' & p' & u' & _ & Hi' & Hs' & Ha' & Hc' & Hp'
                 & Hu' & Hnull & _ & _ & ->).
           simplify_eq. by split_and!.
      * right; right; right.
        assert (status = "new") as ->.
        { unfold add_or_update_property, getitem in Hrun.
          rewrite Hid, Hsel in Hrun. destruct fault; [by simplify_eq|].
          destruct (scalars property_data !! "address"); [|by simplify_eq/=].
          destruct (scalars property_data !! "city"); [|by simplify_eq/=].
          destruct (scalars property_data !! "price"); [|by simplify_eq/=].
          destruct (scalars property_data !! "url"); [|by simplify_eq/=].
          destruct (scalars property_data !! "source"); [|by simplify_eq/=].
          simpl in Hrun. by case_match; simplify_eq. }
        apply upsert_new_inv in Hrun
          as (i & a & c & p & u & s & _ & Hi & Ha & Hc & Hp & Hu & Hs & Hsel'
              & Hnull & -> & ->).
        simplify_eq. exists i, a, c, p, u, s. by split_and!.
  - left. unfold add_or_update_property, getitem in Hrun.
    destruct (scalars property_data !! "id") as [i|];
      [|simplify_eq/=; split; [done|right; by eexists]].
    destruct fault; [by simplify_eq|].
    destruct (select_by_id db i) as [existing|].
    + destruct (core_changes (existing_data existing) property_data);
        [by simplify_eq/=|].
      destruct (scalars property_data !! "address");
        [|simplify_eq/=; split; [done|right; by eexists]].
      destruct (scalars property_data !! "city");
        [|simplify_eq/=; split; [done|right; by eexists]].
      destruct (scalars property_data !! "price");
        [|simplify_eq/=; split; [done|right; by eexists]].
      destruct (scalars property_data !! "url");
        [|simplify_eq/=; split; [done|right; by eexists]].
      simpl in Hrun. by case_match; simplify_eq.
    + destruct (scalars property_data !! "address");
        [|simplify_eq/=; split; [done|right; by eexists]].
      destruct (scalars property_data !! "city");
        [|simplify_eq/=; split; [done|right; by eexists]].
      destruct (scalars property_data !! "price");
        [|simplify_eq/=; split; [done|right; by eexists]].
      destruct (scalars property_data !! "url");
        [|simplify_eq/=; split; [done|right; by eexists]].
      destruct (scalars property_data !! "source");
        [|simplify_eq/=; split; [done|right; by eexists]].
      simpl in Hrun. by case_match; simplify_eq.
Qed.

(** ** The store through a batch *)

Lemma process_one_store e source listing acc w out w1 :
  process_one e source listing acc w = (out, w1) →
  ∃ r, add_or_update_property (clock e (calls w)) (faulty e (calls w)) (store w)
         (setitem (heap w listing) "source" (SStr source)) = (r, store w1) ∧
       calls w1 = S (calls w).
Proof.
  unfold process_one. destruct acc as [[new upd] ids].
  rewrite fn_lookup_insert. intros Hrun.
  destruct (add_or_update_property _ _ _ _) as [r db]. exists r.
  destruct r as [[status changes]|ex]; [|by simplify_eq].
  destruct (getitem _ "id"); [|by simplify_eq].
  repeat case_match; by simplify_eq.
Qed.

(** What every upsert keeps, the loop keeps. *)
Lemma ingest_store_invariant (P : database → Prop) e source listings acc w out w1 :
  (∀ now fault db property_data r db',
     add_or_update_property now fault db property_data = (r, db') →
     P db → P db') →
  ingest e source listings acc w = (out, w1) →
  P (store w) → P (store w1).
Proof.
  intros Hup. revert acc w.
  induction listings as [|x rest IH]; intros acc w Hrun HP; cbn [ingest] in Hrun.
  - by simplify_eq.
  - destruct (process_one e source x acc w) as [[acc2|ex] w2] eqn:Hone.
    + apply (IH _ _ Hrun). apply process_one_store in Hone as (r & Hr & _).
      by eapply Hup.
    + simplify_eq. apply process_one_store in Hone as (r & Hr & _).
      by eapply Hup.
Qed.

(** What every upsert and every sweep keep, the batch keeps, however it
    ends. *)
Lemma process_listings_store_invariant (P : database → Prop)
    e source listings w out w' :
  (∀ now fault db property_data r db',
     add_or_update_property now fault db property_data = (r, db') →
     P db → P db') →
  (∀ now fault db active_ids src removed db',
     mark_inactive_properties now fault db active_ids src = (removed, db') →
     P db → P db') →
  process_listings e source listings w = (out, w') →
  P (store w) → P (store w').
Proof.
  intros Hup Hsweep. unfold process_listings. intros Hrun HP.
  destruct (ingest e source listings ([], [], []) w) as [[[[new upd] ids]|ex] w1]
    eqn:Hin.
  - destruct (mark_inactive_properties _ _ _ _ _) as [removed_ids db] eqn:Hs.
    destruct (fetch_removed _ _ _ _ _) as [removed n]. simplify_eq. simpl.
    eapply Hsweep; [exact Hs|]. by eapply ingest_store_invariant.
  - simplify_eq. by eapply ingest_store_invariant.
Qed.

(** ** The constraints of the schema *)

Lemma update_where_id_ids id f rows :
  (∀ r, r_id (f r) = r_id r) →
  map r_id (update_where_id id f rows) = map r_id rows.
Proof.
  intros Hf. unfold update_where_id. rewrite map_map. apply map_ext.
  intros r. by destruct (sql_eq (r_id r) id).
Qed.

Lemma select_None_not_in db id :
  id ≠ SNone → select_by_id db id = None → id ∉ map r_id (properties db).
Proof.
  intros Hnull Hsel Hin. apply list_elem_of_fmap in Hin as (r & -> & Hr).
  apply list_elem_of_In in Hr.
  pose proof (find_none _ _ Hsel r Hr) as Hno. simpl in Hno.
  by rewrite sql_eq_refl in Hno.
Qed.

Lemma is_null_false v : is_null v = false ↔ v ≠ SNone.
Proof. unfold is_null. by rewrite bool_decide_eq_false. Qed.

Lemma upsert_constraints now fault db property_data out db' :
  add_or_update_property now fault db property_data = (out, db') →
  constraints_hold db → constraints_hold db'.
Proof.
  intros Hrun ([Hnd Hnn] & Hcols & Hfk).
  apply upsert_cases in Hrun
    as [[-> _]|[(id & ex & _ & Hsel & _ & _ & ->)
       |[(id & ex & a & c & p & u & _ & Hsel & _ & _ & _ & _ & Hnull & _ & _ & ->)
        |(id & a & c & p & u & s & _ & Hsel & _ & _ & _ & _ & _ & Hnull & _ & ->)]]].
  - done.
  - unfold constraints_hold, primary_key, foreign_key; simpl.
    rewrite update_where_id_ids by done. split_and!; try done.
    intros r Hr. apply list_elem_of_fmap in Hr as (r0 & -> & Hr0).
    destruct (sql_eq (r_id r0) id); [|by apply Hcols].
    destruct (Hcols r0 Hr0) as (? & ? & ? & ? & ?). by split_and!.
  - unfold constraints_hold, primary_key, foreign_key; simpl.
    rewrite update_where_id_ids by done.
    rewrite !orb_false_iff, !is_null_false in Hnull.
    destruct Hnull as (((? & ?) & ?) & ?). split_and!; try done.
    + intros r Hr. apply list_elem_of_fmap in Hr as (r0 & -> & Hr0).
      destruct (sql_eq (r_id r0) id); [|by apply Hcols].
      destruct (Hcols r0 Hr0) as (? & ? & ? & ? & ?). by split_and!.
    + intros h Hh. apply elem_of_app in Hh as [Hh|Hh]; [by apply Hfk|].
      apply list_elem_of_fmap in Hh as (ch & -> & _). simpl.
      apply select_by_id_Some in Hsel as (Hin & <- & _).
      by apply list_elem_of_fmap_2.
  - unfold constraints_hold, primary_key, foreign_key; simpl.
    rewrite !orb_false_iff, !is_null_false in Hnull.
    destruct Hnull as (((((? & ?) & ?) & ?) & ?) & Hid).
    rewrite map_app; simpl. split_and!.
    + apply list.NoDup_app. split_and!; [done| |apply NoDup_singleton].
      intros x Hx Hx'. apply list_elem_of_singleton in Hx' as ->.
      by eapply select_None_not_in.
    + rewrite elem_of_app, list_elem_of_singleton. intros [?|?]; [done|].
      by apply Hid.
    + intros r Hr. apply elem_of_app in Hr as [Hr|Hr]; [by apply Hcols|].
      apply list_elem_of_singleton in Hr as ->. by split_and!.
    + intros h Hh. apply elem_of_app in Hh as [Hh|Hh].
      * apply elem_of_app. left. by apply Hfk.
      * apply list_elem_of_singleton in Hh as ->. simpl.
        apply elem_of_app. right. by apply list_elem_of_singleton.
Qed.

Lemma sweep_ids now fault db active_ids source removed db' :
  mark_inactive_properties now fault db active_ids source = (removed, db') →
  map r_id (properties db') = map r_id (properties db) ∧
  ∀ id, id ∈ removed → id ∈ map r_id (properties db).
Proof.
  intros Hrun. pose proof Hrun as Hinv.
  apply sweep_inv in Hinv as (Hrem & -> & _). split.
  - rewrite map_map. apply map_ext. intros r. by case_bool_decide.
  - intros id Hid. rewrite Hrem in Hid. destruct fault;
      [by apply elem_of_nil in Hid|].
    apply list_elem_of_fmap in Hid as (r & -> & Hr).
    apply list_elem_of_In, filter_In in Hr as [Hr _].
    by apply list_elem_of_fmap_2, list_elem_of_In.
Qed.

Lemma sweep_constraints now fault db active_ids source removed db' :
  mark_inactive_properties now fault db active_ids source = (removed, db') →
  constraints_hold db → constraints_hold db'.
Proof.
  intros Hrun ([Hnd Hnn] & Hcols & Hfk).
  pose proof (sweep_ids _ _ _ _ _ _ _ Hrun) as [Hids Hrem].
  apply sweep_inv in Hrun as (_ & Hrows & Hhist).
  unfold constraints_hold, primary_key, foreign_key.
  rewrite Hids. split_and!; try done.
  - rewrite Hrows. intros r Hr.
    apply list_elem_of_fmap in Hr as (r0 & -> & Hr0).
    case_bool_decide; [|by apply Hcols].
    destruct (Hcols r0 Hr0) as (? & ? & ? & ? & ?). by split_and!.
  - rewrite Hhist. intros h Hh. apply elem_of_app in Hh as [Hh|Hh];
      [by apply Hfk|].
    apply list_elem_of_fmap in Hh as (id & -> & Hid). simpl. by apply Hrem.
Qed.

(** X1.  The constraints of the schema survive a batch, however it ends:
    when the identifiers of the stored records are unique and not NULL,
    the [NOT NULL] columns are filled and every history row refers to a
    stored record before [process_listings], the same holds after it, also
    when it raised. *)
Theorem process_listings_keeps_constraints e source listings w out w' :
  process_listings e source listings w = (out, w') →
  constraints_hold (store w) → constraints_hold (store w').
Proof.
  apply (process_listings_store_invariant constraints_hold).
  - intros. by eapply upsert_constraints.
  - intros. by eapply sweep_constraints.
Qed.

Lemma constraints_hold_empty : constraints_hold empty_db.
Proof.
  unfold constraints_hold, primary_key, foreign_key; simpl. split_and!.
  - constructor.
  - apply not_elem_of_nil.
  - intros r Hr. by apply elem_of_nil in Hr.
  - intros h Hh. by apply elem_of_nil in Hh.
Qed.

Lemma process_listings_keeps_constraints_witness :
  constraints_hold
    (store (process_listings Sample.no_fault "test_source" [0%nat]
              (mk_world Sample.house_heap empty_db 0)).2).
Proof.
  apply (process_listings_keeps_constraints Sample.no_fault "test_source"
           [0%nat] (mk_world Sample.house_heap empty_db 0)
           (process_listings Sample.no_fault "test_source" [0%nat]
              (mk_world Sample.house_heap empty_db 0)).1).
  - by destruct (process_listings _ _ _ _).
  - apply constraints_hold_empty.
Defined.

(** ** The keys of [extra_data] *)

Lemma upsert_extra_is_extra now fault db property_data out db' :
  add_or_update_property now fault db property_data = (out, db') →
  extra_is_extra db → extra_is_extra db'.
Proof.
  intros Hrun Hex.
  apply upsert_cases in Hrun
    as [[-> _]|[(id & ex & _ & _ & _ & _ & ->)
       |[(id & ex & a & c & p & u & _ & _ & _ & _ & _ & _ & _ & _ & _ & ->)
        |(id & a & c & p & u & s & _ & _ & _ & _ & _ & _ & _ & _ & _ & ->)]]];
    [done|..]; unfold extra_is_extra; simpl; intros r k Hr Hk.
  - apply list_elem_of_fmap in Hr as (r0 & -> & Hr0).
    destruct (sql_eq (r_id r0) id); simpl; by apply Hex.
  - apply list_elem_of_fmap in Hr as (r0 & -> & Hr0).
    destruct (sql_eq (r_id r0) id); simpl; [|by apply Hex].
    by apply extra_data_of_table_key.
  - apply elem_of_app in Hr as [Hr|Hr]; [by apply Hex|].
    apply list_elem_of_singleton in Hr as ->. simpl.
    by apply extra_data_of_table_key.
Qed.

Lemma sweep_extra_is_extra now fault db active_ids source removed db' :
  mark_inactive_properties now fault db active_ids source = (removed, db') →
  extra_is_extra db → extra_is_extra db'.
Proof.
  intros Hrun Hex. apply sweep_inv in Hrun as (_ & Hrows & _).
  unfold extra_is_extra. rewrite Hrows. intros r k Hr Hk.
  apply list_elem_of_fmap in Hr as (r0 & -> & Hr0).
  case_bool_decide; simpl; by apply Hex.
Qed.

(** X2.  No batch lets an entry of [extra_data] hide one of the thirteen
    columns beside [extra_data]: when no stored record has the name of such
    a column among the keys of its [extra_data] before [process_listings],
    then after it, however it ended, the dictionary that [get_property]
    returns for an identifier holds, under the name of every such column,
    the value of that column in a stored record with that identifier.
    (The column [extra_data] itself is not among them: the key
    ['extra_data'] of a listing is not excluded from the stored mapping,
    and what it holds takes the place of the column in the dictionary.) *)
Theorem get_property_shows_columns e source listings w out w' id view :
  process_listings e source listings w = (out, w') →
  extra_is_extra (store w) →
  get_property false (store w') id = Some view →
  ∃ r, r ∈ properties (store w') ∧ r_id r = id ∧
       ∀ k, k ∈ table_keys → scalars view !! k = row_columns r !! k.
Proof.
  intros Hrun Hex Hget.
  assert (extra_is_extra (store w')) as Hex'.
  { revert Hrun Hex. apply (process_listings_store_invariant extra_is_extra).
    - intros. by eapply upsert_extra_is_extra.
    - intros. by eapply sweep_extra_is_extra. }
  unfold get_property in Hget.
  destruct (select_by_id (store w') id) as [r|] eqn:Hsel; [|done].
  simplify_eq. apply select_by_id_Some in Hsel as (Hr & Hid & _).
  exists r. split_and!; [done..|]. intros k Hk.
  apply existing_data_column. by apply Hex'.
Qed.

Lemma extra_is_extra_empty : extra_is_extra empty_db.
Proof. intros r k Hr. by apply elem_of_nil in Hr. Qed.

Lemma get_property_shows_columns_witness :
  let w := mk_world Sample.house_heap empty_db 0 in
  let r := process_listings Sample.no_fault "test_source" [0%nat] w in
  ∃ row, row ∈ properties (store r.2) ∧ r_id row = SStr "test_property_2" ∧
         ∀ k, k ∈ table_keys →
              scalars (existing_data More.house_row_t1) !! k
              = row_columns row !! k.
Proof.
  apply (get_property_shows_columns Sample.no_fault "test_source" [0%nat]
           (mk_world Sample.house_heap empty_db 0)
           (process_listings Sample.no_fault "test_source" [0%nat]
              (mk_world Sample.house_heap empty_db 0)).1).
  - by destruct (process_listings _ _ _ _).
  - apply extra_is_extra_empty.
  - vm_compute; reflexivity.
Defined.

(** ** What a batch never rewrites *)

Lemma update_where_id_identity id f rows :
  (∀ r, identity_columns (f r) = identity_columns r) →
  map identity_columns (update_where_id id f rows) = map identity_columns rows.
Proof.
  intros Hf. unfold update_where_id. rewrite map_map. apply map_ext.
  intros r. by destruct (sql_eq (r_id r) id).
Qed.

Lemma upsert_appends now fault db property_data out db' :
  add_or_update_property now fault db property_data = (out, db') →
  property_history db `prefix_of` property_history db' ∧
  map identity_columns (properties db)
    `prefix_of` map identity_columns (properties db').
Proof.
  intros Hrun.
  apply upsert_cases in Hrun
    as [[-> _]|[(id & ex & _ & _ & _ & _ & ->)
       |[(id & ex & a & c & p & u & _ & _ & _ & _ & _ & _ & _ & _ & _ & ->)
        |(id & a & c & p & u & s & _ & _ & _ & _ & _ & _ & _ & _ & _ & ->)]]];
    simpl.
  - done.
  - split; [done|]. by rewrite update_where_id_identity.
  - split; [by apply prefix_app_r|]. by rewrite update_where_id_identity.
  - split; [by apply prefix_app_r|]. rewrite map_app. by apply prefix_app_r.
Qed.

Lemma sweep_appends now fault db active_ids source removed db' :
  mark_inactive_properties now fault db active_ids source = (removed, db') →
  property_history db `prefix_of` property_history db' ∧
  map identity_columns (properties db)
    `prefix_of` map identity_columns (properties db').
Proof.
  intros Hrun. apply sweep_inv in Hrun as (_ & -> & ->).
  split; [by apply prefix_app_r|]. rewrite map_map.
  assert (map (λ r, identity_columns
                      (if bool_decide (r_id r ∈ removed)
                       then set_inactive now r else r)) (properties db)
          = map identity_columns (properties db)) as ->; [|done].
  apply map_ext. intros r. by case_bool_decide.
Qed.

(** X3.  A batch only appends, however it ends: the history before
    [process_listings] is a prefix of the history after it, no record is
    deleted or reordered, and the identifier, the source and [first_seen]
    of every record that was stored are as they were. *)
Theorem process_listings_only_appends e source listings w :
  let w' := (process_listings e source listings w).2 in
  property_history (store w) `prefix_of` property_history (store w') ∧
  map identity_columns (properties (store w))
    `prefix_of` map identity_columns (properties (store w')).
Proof.
  destruct (process_listings e source listings w) as [out w'] eqn:Hrun. simpl.
  pose proof (process_listings_store_invariant
           (λ db, property_history (store w) `prefix_of` property_history db ∧
                  map identity_columns (properties (store w))
                    `prefix_of` map identity_columns (properties db))
           e source listings w out w') as Hinv.
  apply Hinv; [| |done|done].
  - intros now fault db pd r db' Hup [H1 H2].
    apply upsert_appends in Hup as [H3 H4]. split; by etrans.
  - intros now fault db ids src removed db' Hs [H1 H2].
    apply sweep_appends in Hs as [H3 H4]. split; by etrans.
Qed.

(** ** Upsert, then lookup *)

Lemma row_columns_other r k : k ∉ table_keys → row_columns r !! k = None.
Proof. intros Hk. unfold row_columns. by apply not_elem_of_list_to_map_1. Qed.

(** The view of a row that an upsert has just written from [property_data]. *)
Lemma written_row_view property_data r k v :
  r_extra_data r = extra_data_of property_data →
  scalars property_data !! "id" = Some (r_id r) →
  scalars property_data !! "address" = Some (r_address r) →
  scalars property_data !! "city" = Some (r_city r) →
  scalars property_data !! "price" = Some (r_price r) →
  scalars property_data !! "url" = Some (r_url r) →
  r_area r = get property_data "area" (SInt 0) →
  r_rooms r = get property_data "rooms" (SInt 0) →
  r_property_type r = get property_data "property_type" (SStr "Onbekend") →
  scalars property_data !! k = Some v →
  k ∉ store_owned_keys →
  scalars (existing_data r) !! k = Some v.
Proof.
  intros Hextra Hid Ha Hc Hp Hu Harea Hrooms Htype Hk Hown.
  destruct (decide (k ∈ table_keys)) as [Hin|Hout].
  - rewrite existing_data_column
      by (rewrite Hextra; by apply extra_data_of_table_key).
    unfold table_keys in Hin. unfold get in *.
    repeat (apply elem_of_cons in Hin as [->|Hin]);
      try (exfalso; apply Hown; unfold store_owned_keys;
           by repeat constructor).
    all: try by apply elem_of_nil in Hin.
    all: unfold row_columns.
    + by rewrite Hid in Hk.
    + by rewrite Ha in Hk.
    + by rewrite Hc in Hk.
    + by rewrite Hp in Hk.
    + rewrite Hk in Harea. by rewrite <- Harea.
    + rewrite Hk in Hrooms. by rewrite <- Hrooms.
    + rewrite Hk in Htype. by rewrite <- Htype.
    + by rewrite Hu in Hk.
  - unfold existing_data; simpl. apply lookup_union_Some_l.
    rewrite Hextra. by rewrite extra_data_of_other_key.
Qed.

(** X4.  Upsert, then lookup: after an upsert of a well-typed snapshot
    that created or updated the record, [get_property] returns a
    dictionary that holds every entry of
    the snapshot, the entries under the keys that the store owns
    ([source], [first_seen], [last_seen], [last_updated], [active]) apart,
    that holds the diff list of the snapshot when it has one, and in which
    [last_seen] and [last_updated] are the time of the upsert and [active]
    is 1. *)
Theorem upsert_then_get now fault db property_data id status changes db' :
  well_typed property_data = true →
  scalars property_data !! "id" = Some id →
  add_or_update_property now fault db property_data
    = (Ok (status, changes), db') →
  status = "new" ∨ status = "updated" →
  ∃ view,
    get_property false db' id = Some view ∧
    (∀ k v, scalars property_data !! k = Some v → k ∉ store_owned_keys →
            scalars view !! k = Some v) ∧
    changes_entry view = changes_entry property_data ∧
    scalars view !! "last_seen" = Some (SStr now) ∧
    scalars view !! "last_updated" = Some (SStr now) ∧
    scalars view !! "active" = Some (SInt 1).
Proof.
  intros _ Hid Hrun Hstatus.
  assert (∀ r, r_extra_data r = extra_data_of property_data →
               r_last_seen r = now → r_last_updated r = now →
               r_active r = true →
               scalars (existing_data r) !! "last_seen" = Some (SStr now) ∧
               scalars (existing_data r) !! "last_updated" = Some (SStr now) ∧
               scalars (existing_data r) !! "active" = Some (SInt 1)) as Hown.
  { intros r Hextra Hls Hlu Hact.
    rewrite !existing_data_column
      by (rewrite Hextra; apply extra_data_of_table_key;
          apply (bool_decide_unpack _); vm_compute; exact I).
    unfold row_columns. rewrite Hls, Hlu, Hact. by split_and!. }
  destruct Hstatus as [-> | ->].
  - apply upsert_new_inv in Hrun
      as (i & address & city & price & url & src & -> & Hi & Ha & Hc & Hp & Hu
          & Hs & Hsel & Hnull & -> & ->).
    assert (i = id) as -> by congruence.
    pose proof (is_null_last_false _ _ Hnull) as Hidnull.
    eexists. split.
    { unfold get_property, select_by_id; simpl.
      rewrite (find_app_last _ _ _ Hsel); [done|]. by apply sql_eq_refl. }
    split; [|split; [done|by apply Hown]].
    intros k v Hk Hno. by apply (written_row_view property_data).
  - apply upsert_updated_inv in Hrun
      as (i & existing & address & city & price & url & -> & Hi & Hsel & Ha
          & Hc & Hp & Hu & Hnull & -> & Hch & ->).
    assert (i = id) as -> by congruence.
    pose proof (select_by_id_Some _ _ _ Hsel) as (_ & Hrid & _).
    eexists. split.
    { unfold get_property.
      rewrite (select_by_id_update _ _ _ _ (property_history db)) by done.
      destruct db as [rows hist]; simpl in *. by rewrite Hsel. }
    split; [|split; [done|by apply Hown]].
    intros k v Hk Hno. apply (written_row_view property_data); try done.
    simpl. by rewrite Hrid.
Qed.

Lemma upsert_then_get_witness :
  let db' := (add_or_update_property "t1" false Sample.one_house
                                     Sample.house_repriced).2 in
  ∃ view,
    get_property false db' (SStr "test_property_2") = Some view ∧
    (∀ k v, scalars Sample.house_repriced !! k = Some v →
            k ∉ store_owned_keys → scalars view !! k = Some v) ∧
    changes_entry view = changes_entry Sample.house_repriced ∧
    scalars view !! "last_seen" = Some (SStr "t1") ∧
    scalars view !! "last_updated" = Some (SStr "t1") ∧
    scalars view !! "active" = Some (SInt 1).
Proof.
  apply (upsert_then_get "t1" false Sample.one_house Sample.house_repriced
           (SStr "test_property_2") "updated"
           [mk_change "price" (SInt 180000) (SInt 190000);
            mk_change "rooms" (SInt 4) (SInt 5)]).
  - vm_compute; reflexivity.
  - vm_compute; reflexivity.
  - vm_compute; reflexivity.
  - by right.
Defined.

(** ** An upsert and the other entities *)

Lemma find_update_other id other f rows :
  other ≠ id → (∀ r, r_id (f r) = r_id r) →
  List.find (λ r, sql_eq (r_id r) other) (update_where_id id f rows)
  = List.find (λ r, sql_eq (r_id r) other) rows.
Proof.
  intros Hne Hf. unfold update_where_id.
  induction rows as [|r rows IH]; [done|]. simpl.
  destruct (sql_eq (r_id r) id) eqn:Hid.
  - rewrite Hf. destruct (sql_eq (r_id r) other) eqn:Ho; [|done].
    apply sql_eq_true in Hid as [Hid _]. apply sql_eq_true in Ho as [Ho _].
    congruence.
  - by rewrite IH.
Qed.

Lemma find_app_miss {A} (p : A → bool) l x :
  p x = false → List.find p (l ++ [x]) = List.find p l.
Proof.
  intros Hx. induction l as [|a l IH]; simpl; [by rewrite Hx|].
  by destruct (p a).
Qed.

Lemma upsert_select_other now fault db property_data out db' other :
  add_or_update_property now fault db property_data = (out, db') →
  scalars property_data !! "id" ≠ Some other →
  select_by_id db' other = select_by_id db other.
Proof.
  intros Hrun Hother.
  apply upsert_cases in Hrun
    as [[-> _]|[(id & ex & Hid & _ & _ & _ & ->)
       |[(id & ex & a & c & p & u & Hid & _ & _ & _ & _ & _ & _ & _ & _ & ->)
        |(id & a & c & p & u & s & Hid & _ & _ & _ & _ & _ & _ & _ & _ & ->)]]];
    [done|..]; unfold select_by_id; simpl.
  - rewrite find_update_other; [done| |done]. congruence.
  - rewrite find_update_other; [done| |done]. congruence.
  - rewrite find_app_miss; [done|]. simpl.
    destruct (sql_eq id other) eqn:He; [|done].
    apply sql_eq_true in He as [He _]. congruence.
Qed.

(** X5.  An upsert touches one entity: for a snapshot whose identifier is
    not an integer (it is text or [None], or the snapshot has none), and
    however the upsert ends, [get_property] returns for every text
    identifier other than the snapshot's what it returned before. *)
Theorem upsert_leaves_other_entities now fault db property_data other :
  (∀ n, scalars property_data !! "id" ≠ Some (SInt n)) →
  scalars property_data !! "id" ≠ Some (SStr other) →
  get_property false
    (add_or_update_property now fault db property_data).2 (SStr other)
  = get_property false db (SStr other).
Proof.
  intros _ Hother.
  destruct (add_or_update_property now fault db property_data) as [out db']
    eqn:Hrun. simpl. unfold get_property.
  by rewrite (upsert_select_other _ _ _ _ _ _ _ Hrun Hother).
Qed.

Lemma upsert_leaves_other_entities_witness :
  get_property false
    (add_or_update_property "t1" false Sample.one_house
       (setitem More.flat_listing "source" (SStr "test_source"))).2
    (SStr "test_property_2")
  = get_property false Sample.one_house (SStr "test_property_2").
Proof.
  apply (upsert_leaves_other_entities "t1" false Sample.one_house
           (setitem More.flat_listing "source" (SStr "test_source"))
           "test_property_2").
  - intros n. vm_compute. discriminate.
  - vm_compute. discriminate.
Defined.

(** ** An upsert that reports [unchanged] *)

Lemma row_columns_set_last_seen now r k :
  k ≠ "last_seen" → k ≠ "active" →
  row_columns (set_last_seen now r) !! k = row_columns r !! k.
Proof.
  intros H1 H2. destruct (decide (k ∈ table_keys)) as [Hin|Hout].
  - unfold table_keys in Hin.
    repeat (apply elem_of_cons in Hin as [->|Hin]); try done.
    by apply elem_of_nil in Hin.
  - by rewrite !row_columns_other.
Qed.

(** X6.  An upsert that reports [unchanged] is an observation and nothing
    else: the dictionary that [get_property] returns for the entity
    afterwards is the one it returned before, but for [last_seen], which is
    the time of the upsert, and [active], which is 1. *)
Theorem unchanged_upsert_only_marks_seen
    now fault db property_data id changes db' view :
  scalars property_data !! "id" = Some id →
  extra_is_extra db →
  add_or_update_property now fault db property_data
    = (Ok ("unchanged", changes), db') →
  get_property false db id = Some view →
  ∃ view',
    get_property false db' id = Some view' ∧
    changes_entry view' = changes_entry view ∧
    scalars view' !! "last_seen" = Some (SStr now) ∧
    scalars view' !! "active" = Some (SInt 1) ∧
    ∀ k, k ≠ "last_seen" → k ≠ "active" →
         scalars view' !! k = scalars view !! k.
Proof.
  intros Hid Hex Hrun Hget.
  apply upsert_unchanged_inv in Hrun as (i & row & Hi & Hsel & _ & _ & ->).
  assert (i = id) as -> by congruence.
  unfold get_property in *. rewrite Hsel in Hget. simplify_eq.
  rewrite (select_by_id_update _ _ _ _ (property_history db)) by done.
  destruct db as [rows hist]; simpl in *. rewrite Hsel. simpl.
  eexists. split; [done|].
  pose proof (select_by_id_Some _ _ _ Hsel) as (Hin & _ & _).
  split; [done|]. split_and!.
  - rewrite existing_data_column; [done|]. simpl. apply (Hex row); [done|].
    apply (bool_decide_unpack _); vm_compute; exact I.
  - rewrite existing_data_column; [done|]. simpl. apply (Hex row); [done|].
    apply (bool_decide_unpack _); vm_compute; exact I.
  - intros k H1 H2. unfold existing_data; simpl.
    by rewrite !lookup_union, row_columns_set_last_seen.
Qed.

Lemma extra_is_extra_one_house : extra_is_extra Sample.one_house.
Proof.
  apply (upsert_extra_is_extra "t0" false empty_db Sample.house
           (add_or_update_property "t0" false empty_db Sample.house).1).
  - unfold Sample.one_house. by destruct (add_or_update_property _ _ _ _).
  - apply extra_is_extra_empty.
Qed.

Lemma unchanged_upsert_only_marks_seen_witness :
  let db' := (add_or_update_property "t1" false Sample.one_house Sample.house).2 in
  ∃ view',
    get_property false db' (SStr "test_property_2") = Some view' ∧
    changes_entry view' = changes_entry (existing_data Sample.house_row) ∧
    scalars view' !! "last_seen" = Some (SStr "t1") ∧
    scalars view' !! "active" = Some (SInt 1) ∧
    ∀ k, k ≠ "last_seen" → k ≠ "active" →
         scalars view' !! k = scalars (existing_data Sample.house_row) !! k.
Proof.
  apply (unchanged_upsert_only_marks_seen "t1" false Sample.one_house
           Sample.house (SStr "test_property_2") []).
  - vm_compute; reflexivity.
  - apply extra_is_extra_one_house.
  - vm_compute; reflexivity.
  - vm_compute; reflexivity.
Defined.

(** ** Sweeping twice *)

Lemma List_filter_none {A} (p : A → bool) (l : list A) :
  (∀ x, In x l → p x = false) → List.filter p l = [].
Proof.
  induction l as [|a l IH]; intros Hl; [done|]. simpl.
  rewrite (Hl a) by (by left). apply IH. intros x Hx. apply Hl. by right.
Qed.

(** X7.  The sweep is idempotent: after a sweep that met no fault, a
    second sweep for the same source with the same list of seen
    identifiers finds nothing to deactivate and leaves the store as it
    is. *)
Theorem sweep_twice now db active_ids source removed db1 now' fault' :
  mark_inactive_properties now false db active_ids source = (removed, db1) →
  mark_inactive_properties now' fault' db1 active_ids source = ([], db1).
Proof.
  intros Hrun. unfold mark_inactive_properties at 1.
  destruct fault'; [done|].
  assert (List.filter (missing active_ids source) (properties db1) = [])
    as ->; [|done].
  apply sweep_inv in Hrun as (Hrem & Hrows & _). rewrite Hrows.
  apply List_filter_none. intros r1 Hin.
  apply in_map_iff in Hin as (r & <- & Hr).
  case_bool_decide as Hid.
  - unfold missing. simpl. by rewrite andb_false_r.
  - destruct (missing active_ids source r) eqn:Hm; [|done].
    exfalso. apply Hid. rewrite Hrem.
    apply list_elem_of_fmap_2, list_elem_of_In, filter_In. by split.
Qed.

Lemma sweep_twice_witness :
  mark_inactive_properties "t2" false Sample.one_house_gone []
                           (SStr "test_source")
  = ([], Sample.one_house_gone).
Proof.
  apply (sweep_twice "t1" Sample.one_house [] (SStr "test_source")
           [SStr "test_property_2"]).
  vm_compute; reflexivity.
Defined.



(** ** Snapshots that supply every core field *)

Lemma row_columns_core_set_last_seen now r f :
  f ∈ core_fields →
  row_columns (set_last_seen now r) !! f = row_columns r !! f.
Proof.
  intros Hf. apply row_columns_set_last_seen; intros ->;
    unfold core_fields in Hf;
    repeat (apply elem_of_cons in Hf as [?|Hf]; [done|]);
    by apply elem_of_nil in Hf.
Qed.

Lemma written_core_field now address city price area rooms property_type url
    extra r f :
  f ∈ core_fields →
  row_columns (set_all_fields now address city price area rooms property_type
                              url extra r) !! f
  = (list_to_map [("price", price); ("area", area); ("rooms", rooms);
                  ("property_type", property_type); ("address", address);
                  ("city", city)] : gmap string scalar) !! f.
Proof.
  intros Hf. unfold core_fields in Hf.
  repeat (apply elem_of_cons in Hf as [->|Hf]); try done.
  by apply elem_of_nil in Hf.
Qed.

(** X8.  For a well-typed snapshot that supplies all six core fields, as
    every standardized listing does, the history is complete: whenever the value
    that [get_property] returns under a core field after a successful upsert
    differs from the one stored before, the upsert has appended the
    [changed_<field>] row with the old and the new value. *)
Theorem complete_snapshot_records_every_change
    now fault db property_data id existing status changes db' view f old new :
  well_typed property_data = true →
  (∀ g, g ∈ core_fields → is_Some (scalars property_data !! g)) →
  scalars property_data !! "id" = Some id →
  select_by_id db id = Some existing →
  add_or_update_property now fault db property_data
    = (Ok (status, changes), db') →
  status ≠ "error" →
  get_property false db' id = Some view →
  f ∈ core_fields →
  scalars (existing_data existing) !! f = Some old →
  scalars view !! f = Some new →
  old ≠ new →
  ∃ appended,
    property_history db' = property_history db ++ appended ∧
    mk_history id ("changed_" +:+ f) now (Some (py_str old)) (py_str new)
      ∈ appended.
Proof.
  intros _ Hall Hid Hsel Hrun Hok Hget Hf Hold Hnew Hne.
  destruct (upsert_existing_inv _ _ _ _ _ _ _ _ _ Hid Hsel Hrun Hok)
    as (-> & Hhist & Hcase).
  eexists. split; [exact Hhist|].
  assert (scalars property_data !! f = Some new) as Hcand.
  { destruct Hcase as [(_ & Hnil & Hrows)
                      |(_ & _ & a & c & p & u & Ha & Hc & Hp & Hu & Hrows)];
      unfold get_property in Hget; destruct db' as [rows' hist']; simpl in *;
      subst rows';
      rewrite (select_by_id_update _ _ _ _ (property_history db)) in Hget
        by done;
      destruct db as [rows hist]; simpl in *; rewrite Hsel in Hget;
      simpl in Hget; simplify_eq.
    - exfalso. apply Hne.
      unfold existing_data in Hnew; simpl in Hnew.
      rewrite lookup_union, row_columns_core_set_last_seen in Hnew by done.
      unfold existing_data in Hold; simpl in Hold.
      rewrite lookup_union in Hold. congruence.
    - rewrite existing_data_column in Hnew
        by (simpl; by apply extra_data_of_table_key, core_fields_table_keys).
      rewrite written_core_field in Hnew by done.
      unfold get in Hnew. unfold core_fields in Hf.
      repeat (apply elem_of_cons in Hf as [->|Hf]);
        [..|by apply elem_of_nil in Hf].
      + by rewrite Hp.
      + destruct (Hall "area" ltac:(repeat constructor)) as [v Hv].
        rewrite Hv in Hnew |- *. by simplify_eq.
      + destruct (Hall "rooms" ltac:(repeat constructor)) as [v Hv].
        rewrite Hv in Hnew |- *. by simplify_eq.
      + destruct (Hall "property_type" ltac:(repeat constructor)) as [v Hv].
        rewrite Hv in Hnew |- *. by simplify_eq.
      + by rewrite Ha.
      + by rewrite Hc. }
  apply list_elem_of_fmap. exists (mk_change f old new). split; [done|].
  apply elem_of_core_changes. by exists old, new.
Qed.

Lemma complete_snapshot_records_every_change_witness :
  ∃ appended,
    property_history
      (add_or_update_property "t1" false Sample.one_house
                              Sample.house_repriced).2
    = property_history Sample.one_house ++ appended ∧
    mk_history (SStr "test_property_2") ("changed_" +:+ "price") "t1"
               (Some (py_str (SInt 180000))) (py_str (SInt 190000))
      ∈ appended.
Proof.
  apply (complete_snapshot_records_every_change "t1" false Sample.one_house
           Sample.house_repriced (SStr "test_property_2") Sample.house_row
           "updated"
           [mk_change "price" (SInt 180000) (SInt 190000);
            mk_change "rooms" (SInt 4) (SInt 5)]
           _ (existing_data More.house_row_repriced)).
  - vm_compute; reflexivity.
  - intros g Hg. unfold core_fields in Hg.
    repeat (apply elem_of_cons in Hg as [->|Hg]);
      try (vm_compute; by eexists).
    by apply elem_of_nil in Hg.
  - vm_compute; reflexivity.
  - vm_compute; reflexivity.
  - vm_compute; reflexivity.
  - discriminate.
  - vm_compute; reflexivity.
  - unfold core_fields. left.
  - vm_compute; reflexivity.
  - vm_compute; reflexivity.
  - discriminate.
Defined.

(** ** Entities that a batch does not list *)

Lemma ingest_calls e source listings acc w acc1 w1 :
  ingest e source listings acc w = (Ok acc1, w1) →
  calls w1 = (calls w + length listings)%nat.
Proof.
  revert acc w. induction listings as [|x rest IH]; intros acc w Hrun;
    cbn [ingest] in Hrun.
  - simplify_eq. simpl. lia.
  - destruct (process_one e source x acc w) as [[acc2|ex] w2] eqn:Hone;
      [|by simplify_eq].
    apply IH in Hrun. apply process_one_store in Hone as (_ & _ & Hc).
    simpl. lia.
Qed.

Lemma upsert_keeps_row now fault db property_data out db' r :
  add_or_update_property now fault db property_data = (out, db') →
  scalars property_data !! "id" ≠ Some (r_id r) →
  r ∈ properties db → r ∈ properties db'.
Proof.
  intros Hrun Hid Hr.
  assert (∀ i f, i ≠ r_id r → r ∈ update_where_id i f (properties db)) as Hupd.
  { intros i f Hi. unfold update_where_id. apply list_elem_of_fmap.
    exists r. split; [|done].
    destruct (sql_eq (r_id r) i) eqn:He; [|done].
    apply sql_eq_true in He as [He _]. congruence. }
  apply upsert_cases in Hrun
    as [[-> _]|[(id & ex & Hi & _ & _ & _ & ->)
       |[(id & ex & a & c & p & u & Hi & _ & _ & _ & _ & _ & _ & _ & _ & ->)
        |(id & a & c & p & u & s & Hi & _ & _ & _ & _ & _ & _ & _ & _ & ->)]]];
    simpl; [done|..].
  - apply Hupd. congruence.
  - apply Hupd. congruence.
  - apply elem_of_app. by left.
Qed.

Lemma ingest_keeps_row e source listings acc w acc1 w1 r :
  ingest e source listings acc w = (Ok acc1, w1) →
  (∀ l, l ∈ listings → scalars (heap w l) !! "id" ≠ Some (r_id r)) →
  r ∈ properties (store w) → r ∈ properties (store w1).
Proof.
  revert acc w. induction listings as [|x rest IH]; intros acc w Hrun Hids Hr;
    cbn [ingest] in Hrun; [by simplify_eq|].
  destruct (process_one e source x acc w) as [[acc2|ex] w2] eqn:Hone;
    [|by simplify_eq].
  apply (IH _ _ Hrun).
  - intros l Hl. rewrite (process_one_scalars _ _ _ _ _ _ _ l "id" Hone) by done.
    apply Hids. by right.
  - apply process_one_store in Hone as (out & Hup & _).
    eapply upsert_keeps_row; [exact Hup| |done].
    unfold setitem; simpl. rewrite lookup_insert_ne by done.
    apply Hids. by left.
Qed.

Lemma fetch_removed_no_fault e removed_ids acc db n :
  (∀ m, faulty e m = false) →
  (fetch_removed e removed_ids acc db n).1
  = acc ++ omap (λ id, existing_data <$> select_by_id db id) removed_ids.
Proof.
  intros Hnf. revert acc n.
  induction removed_ids as [|id ids IH]; intros acc n; simpl.
  - by rewrite app_nil_r.
  - unfold get_property. rewrite Hnf.
    destruct (select_by_id db id) as [r|]; simpl.
    + by rewrite IH, <- app_assoc.
    + apply IH.
Qed.

Lemma not_seen_is_missing seen source r :
  r_source r = SStr source → r_active r = true → r_id r ≠ SNone →
  r_id r ∉ seen → SNone ∉ seen → (seen = [] → r_id r ≠ SStr "") →
  missing seen (SStr source) r = true.
Proof.
  intros Hs Ha Hid Hnot Hnull Hempty.
  destruct seen as [|a l].
  - unfold missing. rewrite Hs, Ha, sql_eq_refl by done.
    unfold sql_not_in, existsb.
    destruct (r_id r) as [|n|s] eqn:Hr; [done|..].
    + by rewrite !bool_decide_eq_false_2.
    + rewrite !bool_decide_eq_false_2; [done..|].
      intros Heq. by apply Hempty.
  - apply missing_seen; [done..|]. by split_and!.
Qed.

Lemma unseen_entity_removed e source listings w res w' r :
  (∀ n, faulty e n = false) →
  process_listings e source listings w = (Ok res, w') →
  r ∈ properties (store w) →
  r_source r = SStr source → r_active r = true → r_id r ≠ SNone →
  (∀ l, l ∈ listings → scalars (heap w l) !! "id" ≠ Some (r_id r) ∧
                        scalars (heap w l) !! "id" ≠ Some SNone) →
  (listings = [] → r_id r ≠ SStr "") →
  (∀ r', r' ∈ properties (store w') → r_id r' = r_id r → r_active r' = false) ∧
  ∃ r', r' ∈ properties (store w') ∧ r_id r' = r_id r ∧
        existing_data r' ∈ res_removed res.
Proof.
  intros Hnf Hrun Hr Hsrc Hact Hid Hids Hempty.
  unfold process_listings in Hrun.
  destruct (ingest e source listings ([], [], []) w)
    as [[[[new upd] seen]|ex] w1] eqn:Hin; [|by simplify_eq].
  destruct (mark_inactive_properties _ _ _ _ _) as [removed db] eqn:Hsweep.
  pose proof (fetch_removed_no_fault e removed [] db (S (calls w1)) Hnf) as Hfetch.
  destruct (fetch_removed _ _ _ _ _) as [removed_properties n]. simplify_eq.
  simpl in *.
  pose proof (ingest_active_ids _ _ _ _ _ _ _ _ _ _ _ Hin) as (seen' & Hs & Hseen).
  simpl in Hs. subst seen'.
  assert ((r_id r ∉ seen) ∧ (SNone ∉ seen)) as [Hnot Hnull].
  { split; intros Hx; apply (list_elem_of_fmap_2 Some) in Hx;
      change (fmap Some seen) with (map Some seen) in Hx; rewrite Hseen in Hx;
      apply list_elem_of_fmap in Hx as (l & Heq & Hl);
      destruct (Hids l Hl) as [H1 H2]; congruence. }
  assert (seen = [] → r_id r ≠ SStr "") as Hempty'.
  { intros ->. apply Hempty. destruct listings; [done|discriminate]. }
  assert (r ∈ properties (store w1)) as Hr1.
  { eapply ingest_keeps_row; [exact Hin| |done]. intros l Hl. by apply Hids. }
  rewrite Hnf in Hsweep.
  pose proof (sweep_inv _ _ _ _ _ _ _ Hsweep) as (Hrem & Hrows & _).
  assert (r_id r ∈ removed) as Hinrem.
  { rewrite Hrem. apply list_elem_of_fmap_2, list_elem_of_In, filter_In.
    split; [by apply list_elem_of_In|]. by apply not_seen_is_missing. }
  split.
  - rewrite Hrows. intros r' Hr' Heq.
    apply list_elem_of_fmap in Hr' as (r0 & -> & Hr0).
    case_bool_decide as Hc; [done|]. exfalso. apply Hc. by rewrite Heq.
  - assert (∃ r', select_by_id db (r_id r) = Some r') as [r' Hsel].
    { unfold select_by_id.
      destruct (List.find _ _) as [r'|] eqn:Hf; [by eexists|]. exfalso.
      assert (set_inactive (clock e (calls w1)) r ∈ properties db) as Hin'.
      { rewrite Hrows. apply list_elem_of_fmap. exists r.
        by rewrite bool_decide_eq_true_2. }
      apply list_elem_of_In in Hin'.
      pose proof (find_none _ _ Hf _ Hin') as Hno. simpl in Hno.
      by rewrite sql_eq_refl in Hno. }
    pose proof (select_by_id_Some _ _ _ Hsel) as (Hin' & Heq & _).
    exists r'. split_and!; [done..|]. rewrite Hfetch. simpl.
    apply list_elem_of_omap. exists (r_id r). split; [done|].
    by rewrite Hsel.
Qed.

(** X9.  Removal detection.  When no store call meets a fault and the
    batch completes, a stored record of the batch's source that was active
    and whose identifier no snapshot of the batch carries is inactive
    afterwards, and the dictionary of a record with its identifier is in
    the list of removed properties.  Identifiers are text, in the record
    and in every snapshot of the batch.  (The sweep of an empty batch
    passes over the empty identifier, which is excluded.) *)
Theorem batch_reports_unseen_entity e source listings w res w' r id :
  (∀ n, faulty e n = false) →
  process_listings e source listings w = (Ok res, w') →
  r ∈ properties (store w) →
  r_source r = SStr source → r_active r = true → r_id r = SStr id →
  (∀ l, l ∈ listings →
        ∃ id', scalars (heap w l) !! "id" = Some (SStr id') ∧ id' ≠ id) →
  (listings = [] → id ≠ "") →
  (∀ r', r' ∈ properties (store w') → r_id r' = SStr id → r_active r' = false) ∧
  ∃ r', r' ∈ properties (store w') ∧ r_id r' = SStr id ∧
        existing_data r' ∈ res_removed res.
Proof.
  intros Hnf Hrun Hr Hsrc Hact Hid Hids Hempty. rewrite <- Hid.
  apply (unseen_entity_removed e source listings w res w' r); try done.
  - by rewrite Hid.
  - intros l Hl. destruct (Hids l Hl) as (id' & -> & Hne). rewrite Hid.
    split; congruence.
  - intros Hnil. rewrite Hid. intros [= Heq]. by apply Hempty.
Qed.

Lemma batch_reports_unseen_entity_witness :
  let r := process_listings Sample.no_fault "test_source" [0%nat]
                            More.house_replaced in
  (∀ r', r' ∈ properties (store r.2) → r_id r' = SStr "test_property_2" →
         r_active r' = false) ∧
  ∃ r', r' ∈ properties (store r.2) ∧ r_id r' = SStr "test_property_2" ∧
        existing_data r' ∈ res_removed
          (mk_result [0%nat] [] [existing_data Sample.house_gone_row]).
Proof.
  apply (batch_reports_unseen_entity Sample.no_fault "test_source" [0%nat]
           More.house_replaced _ _ Sample.house_row).
  - done.
  - vm_compute; reflexivity.
  - vm_compute. left.
  - reflexivity.
  - reflexivity.
  - reflexivity.
  - intros l Hl. exists "test_property_3".
    split; [vm_compute; reflexivity|discriminate].
  - discriminate.
Defined.

(** ** Entities that a batch lists *)

Lemma upsert_error_inv now fault db property_data changes db' :
  add_or_update_property now fault db property_data
    = (Ok ("error", changes), db') →
  fault = true ∨
  ∃ k, k ∈ ["id"; "address"; "city"; "price"; "url"; "source"] ∧
       scalars property_data !! k = Some SNone.
Proof.
  unfold add_or_update_property, getitem. intros Hrun.
  destruct (scalars property_data !! "id") as [i|] eqn:Hi; [|by simplify_eq/=].
  destruct fault; [by left|]. right.
  assert (∀ v, is_null v = true → v = SNone) as Hn.
  { intros v H. by apply bool_decide_eq_true in H. }
  destruct (select_by_id db i) as [existing|].
  - destruct (core_changes (existing_data existing) property_data)
      as [|ch chs]; [by simplify_eq/=|].
    destruct (scalars property_data !! "address") as [a|] eqn:Ha; [|by simplify_eq/=].
    destruct (scalars property_data !! "city") as [c|] eqn:Hc; [|by simplify_eq/=].
    destruct (scalars property_data !! "price") as [p|] eqn:Hp; [|by simplify_eq/=].
    destruct (scalars property_data !! "url") as [u|] eqn:Hu; [|by simplify_eq/=].
    simpl in Hrun.
    destruct (is_null a || is_null c || is_null p || is_null u) eqn:Hnull;
      [|by simplify_eq].
    rewrite !orb_true_iff in Hnull.
    destruct Hnull as [[[H|H]|H]|H]; apply Hn in H; subst.
    + exists "address". split; [repeat constructor|done].
    + exists "city". split; [repeat constructor|done].
    + exists "price". split; [repeat constructor|done].
    + exists "url". split; [repeat constructor|done].
  - destruct (scalars property_data !! "address") as [a|] eqn:Ha; [|by simplify_eq/=].
    destruct (scalars property_data !! "city") as [c|] eqn:Hc; [|by simplify_eq/=].
    destruct (scalars property_data !! "price") as [p|] eqn:Hp; [|by simplify_eq/=].
    destruct (scalars property_data !! "url") as [u|] eqn:Hu; [|by simplify_eq/=].
    destruct (scalars property_data !! "source") as [s|] eqn:Hs; [|by simplify_eq/=].
    simpl in Hrun.
    destruct (is_null a || is_null c || is_null p || is_null u || is_null s
              || is_null i) eqn:Hnull; [|by simplify_eq].
    rewrite !orb_true_iff in Hnull.
    destruct Hnull as [[[[[H|H]|H]|H]|H]|H]; apply Hn in H; subst.
    + exists "address". split; [repeat constructor|done].
    + exists "city". split; [repeat constructor|done].
    + exists "price". split; [repeat constructor|done].
    + exists "url". split; [repeat constructor|done].
    + exists "source". split; [repeat constructor|done].
    + exists "id". split; [repeat constructor|done].
Qed.

Lemma update_present_and_active db id row f h :
  (∀ r, r_id (f r) = r_id r) → (∀ r, r_active (f r) = true) →
  select_by_id db id = Some row →
  present_and_active id (mk_db (update_where_id id f (properties db)) h).
Proof.
  intros Hfid Hfact Hsel.
  apply select_by_id_Some in Hsel as (Hin & Hid & Hnull).
  unfold present_and_active, update_where_id; simpl. split.
  - exists (f row). split; [|by rewrite Hfid].
    apply list_elem_of_fmap. exists row. split; [|done].
    by rewrite sql_eq_bool_decide, bool_decide_eq_true_2.
  - intros r Hr Hrid. apply list_elem_of_fmap in Hr as (r1 & -> & _).
    destruct (sql_eq (r_id r1) id) eqn:He; [done|].
    rewrite sql_eq_bool_decide, bool_decide_eq_false in He; done.
Qed.

Lemma upsert_makes_present_and_active
    now fault db property_data id status changes db' :
  scalars property_data !! "id" = Some id →
  add_or_update_property now fault db property_data
    = (Ok (status, changes), db') →
  status ≠ "error" →
  present_and_active id db'.
Proof.
  intros Hid Hrun Hok.
  apply upsert_cases in Hrun
    as [[_ [?|(? & ?)]]|[(i & ex & Hi & Hsel & _ & _ & ->)
       |[(i & ex & a & c & p & u & Hi & Hsel & _ & _ & _ & _ & _ & _ & _ & ->)
        |(i & a & c & p & u & s & Hi & Hsel & _ & _ & _ & _ & _ & Hnull & _ & ->)]]];
    [by simplify_eq..| | |]; assert (i = id) as -> by congruence.
  - by eapply update_present_and_active.
  - by eapply update_present_and_active.
  - pose proof (is_null_last_false _ _ Hnull) as Hnn.
    unfold present_and_active; simpl. split.
    + eexists. split; [apply elem_of_app; right; by left|done].
    + intros r Hr Hrid. apply elem_of_app in Hr as [Hr|Hr].
      * exfalso. apply (select_None_not_in _ _ Hnn Hsel).
        rewrite <- Hrid. by apply list_elem_of_fmap_2.
      * by apply list_elem_of_singleton in Hr as ->.
Qed.

(** X10.  When no store call meets a fault and the batch completes, every
    entity that the batch lists is stored and active afterwards, provided
    its snapshot holds no [None] under [id], [address], [city], [price] and
    [url]. *)
Theorem batch_keeps_listed_entity_active e source listings w res w' l id :
  (∀ n, faulty e n = false) →
  process_listings e source listings w = (Ok res, w') →
  l ∈ listings →
  scalars (heap w l) !! "id" = Some id → id ≠ SNone →
  (∀ k, k ∈ ["address"; "city"; "price"; "url"] →
        scalars (heap w l) !! k ≠ Some SNone) →
  (r_active <$> select_by_id (store w') id) = Some true.
Proof.
  intros Hnf Hrun Hl Hid Hnn Hvals.
  apply list_elem_of_split in Hl as (pre & post & ->).
  unfold process_listings in Hrun. rewrite ingest_app in Hrun.
  destruct (ingest e source pre ([], [], []) w) as [[acc1|ex] w1] eqn:Hpre;
    [|by simplify_eq].
  cbn [ingest] in Hrun.
  destruct (process_one e source l acc1 w1) as [[acc2|ex] w2] eqn:Hone;
    [|by simplify_eq].
  destruct (ingest e source post acc2 w2) as [[[[new upd] seen]|ex] w3] eqn:Hpost;
    [|by simplify_eq].
  destruct (mark_inactive_properties _ _ _ _ _) as [removed db] eqn:Hsweep.
  destruct (fetch_removed _ _ _ _ _) as [removed_properties n]. simplify_eq.
  simpl.
  assert (∀ k, k ≠ "source" → k ≠ "changes" →
               scalars (heap w1 l) !! k = scalars (heap w l) !! k) as Hsame.
  { intros k H1 H2. by eapply ingest_scalars. }
  destruct acc1 as [[new1 upd1] ids1]. pose proof Hone as Hinv.
  apply process_one_inv in Hinv
    as (status & changes & i & Hup & Hi & _ & _ & Hcase).
  rewrite Hsame, Hid in Hi by done. simplify_eq.
  assert (status ≠ "error") as Hok.
  { intros ->. apply upsert_error_inv in Hup as [Hf|(k & Hk & Hv)].
    - by rewrite Hnf in Hf.
    - unfold setitem in Hv; simpl in Hv.
      repeat (apply elem_of_cons in Hk as [->|Hk]);
        [..|by apply elem_of_nil in Hk].
      all: try (rewrite lookup_insert_ne, Hsame in Hv by done).
      + congruence.
      + by apply (Hvals "address"); [repeat constructor|].
      + by apply (Hvals "city"); [repeat constructor|].
      + by apply (Hvals "price"); [repeat constructor|].
      + by apply (Hvals "url"); [repeat constructor|].
      + by rewrite lookup_insert_eq in Hv. }
  assert (present_and_active i (store w2)) as Hpa.
  { eapply upsert_makes_present_and_active; [|exact Hup|done].
    unfold setitem; simpl. rewrite lookup_insert_ne by done.
    by rewrite Hsame. }
  assert (i ∈ seen) as Hseen.
  { assert (∃ new2 upd2, acc2 = (new2, upd2, ids1 ++ [i])) as (new2 & upd2 & ->).
    { destruct Hcase as [(_ & -> & _)|[(_ & _ & _ & -> & _)|(_ & _ & -> & _)]];
        by eexists _, _. }
    apply ingest_active_ids in Hpost as (seen' & -> & _).
    rewrite !elem_of_app, list_elem_of_singleton. auto. }
  apply present_and_active_select; [done|].
  eapply sweep_present_and_active; [exact Hsweep|done|].
  by eapply ingest_present_and_active.
Qed.

Lemma batch_keeps_listed_entity_active_witness :
  let r := process_listings (Sample.no_fault_at "t2") "test_source" [0%nat]
                            Sample.house_back in
  (r_active <$> select_by_id (store r.2) (SStr "test_property_2")) = Some true.
Proof.
  apply (batch_keeps_listed_entity_active (Sample.no_fault_at "t2")
           "test_source" [0%nat] Sample.house_back (mk_result [] [] []) _ 0%nat).
  - done.
  - vm_compute; reflexivity.
  - left.
  - vm_compute; reflexivity.
  - discriminate.
  - intros k Hk. repeat (apply elem_of_cons in Hk as [->|Hk]);
      try (vm_compute; discriminate).
    by apply elem_of_nil in Hk.
Defined.

(** ** Batches that cannot raise *)

Lemma upsert_raise_inv now fault db property_data ex db' :
  add_or_update_property now fault db property_data = (Raise ex, db') →
  ∃ k, ex = KeyError k ∧ k ∈ mandatory_fields ++ ["source"] ∧
       scalars property_data !! k = None.
Proof.
  unfold add_or_update_property, getitem. intros Hrun.
  destruct (scalars property_data !! "id") as [i|] eqn:Hi.
  2:{ simplify_eq/=. exists "id". split_and!; [done| |done].
      unfold mandatory_fields. repeat constructor. }
  destruct fault; [by simplify_eq|].
  destruct (select_by_id db i) as [existing|].
  - destruct (core_changes (existing_data existing) property_data)
      as [|ch chs]; [by simplify_eq/=|].
    destruct (scalars property_data !! "address") eqn:Ha.
    2:{ simplify_eq/=. exists "address". split_and!; [done| |done].
        unfold mandatory_fields. repeat constructor. }
    destruct (scalars property_data !! "city") eqn:Hc.
    2:{ simplify_eq/=. exists "city". split_and!; [done| |done].
        unfold mandatory_fields. repeat constructor. }
    destruct (scalars property_data !! "price") eqn:Hp.
    2:{ simplify_eq/=. exists "price". split_and!; [done| |done].
        unfold mandatory_fields. repeat constructor. }
    destruct (scalars property_data !! "url") eqn:Hu.
    2:{ simplify_eq/=. exists "url". split_and!; [done| |done].
        unfold mandatory_fields. repeat constructor. }
    simpl in Hrun. by case_match; simplify_eq.
  - destruct (scalars property_data !! "address") eqn:Ha.
    2:{ simplify_eq/=. exists "address". split_and!; [done| |done].
        unfold mandatory_fields. repeat constructor. }
    destruct (scalars property_data !! "city") eqn:Hc.
    2:{ simplify_eq/=. exists "city". split_and!; [done| |done].
        unfold mandatory_fields. repeat constructor. }
    destruct (scalars property_data !! "price") eqn:Hp.
    2:{ simplify_eq/=. exists "price". split_and!; [done| |done].
        unfold mandatory_fields. repeat constructor. }
    destruct (scalars property_data !! "url") eqn:Hu.
    2:{ simplify_eq/=. exists "url". split_and!; [done| |done].
        unfold mandatory_fields. repeat constructor. }
    destruct (scalars property_data !! "source") eqn:Hs.
    2:{ simplify_eq/=. exists "source". split_and!; [done| |done].
        unfold mandatory_fields. repeat constructor. }
    simpl in Hrun. by case_match; simplify_eq.
Qed.

Lemma process_one_raise_inv e source listing acc w ex w1 :
  process_one e source listing acc w = (Raise ex, w1) →
  ∃ k, ex = KeyError k ∧ k ∈ mandatory_fields ∧
       scalars (heap w listing) !! k = None.
Proof.
  unfold process_one. destruct acc as [[new upd] ids].
  rewrite fn_lookup_insert. intros Hrun.
  destruct (add_or_update_property _ _ _ _) as [[[status changes]|ex'] db]
    eqn:Hup.
  - unfold getitem in Hrun.
    destruct (scalars (setitem (heap w listing) "source" (SStr source)) !! "id")
      as [i|] eqn:Hi.
    + repeat case_match; by simplify_eq.
    + simplify_eq. exists "id". split_and!; [done|by left|].
      unfold setitem in Hi; simpl in Hi. by rewrite lookup_insert_ne in Hi.
  - simplify_eq. apply upsert_raise_inv in Hup as (k & -> & Hk & Hnone).
    exists k. split; [done|]. unfold setitem in Hnone; simpl in Hnone.
    apply elem_of_app in Hk as [Hk|Hk].
    + split; [done|]. rewrite lookup_insert_ne in Hnone; [done|].
      intros <-. unfold mandatory_fields in Hk.
      repeat (apply elem_of_cons in Hk as [?|Hk]; [done|]).
      by apply elem_of_nil in Hk.
    + apply list_elem_of_singleton in Hk as ->.
      by rewrite lookup_insert_eq in Hnone.
Qed.

Lemma ingest_raise_inv e source listings acc w ex w1 :
  ingest e source listings acc w = (Raise ex, w1) →
  ∃ k l, ex = KeyError k ∧ k ∈ mandatory_fields ∧ l ∈ listings ∧
         scalars (heap w l) !! k = None.
Proof.
  revert acc w. induction listings as [|x rest IH]; intros acc w Hrun;
    cbn [ingest] in Hrun; [by simplify_eq|].
  destruct (process_one e source x acc w) as [[acc2|ex'] w2] eqn:Hone.
  - apply IH in Hrun as (k & l & -> & Hk & Hl & Hnone).
    exists k, l. split_and!; [done..|by right|].
    rewrite <- Hnone. symmetry.
    eapply process_one_scalars; [exact Hone|..]; intros ->;
      unfold mandatory_fields in Hk;
      repeat (apply elem_of_cons in Hk as [?|Hk]; [done|]);
      by apply elem_of_nil in Hk.
  - simplify_eq. apply process_one_raise_inv in Hone as (k & -> & Hk & Hnone).
    exists k, x. split_and!; [done..|by left|done].
Qed.

(** X11.  A [KeyError] that leaves [process_listings] names one of the
    five mandatory keys ([id], [address], [city], [price], [url]), and a
    snapshot of the batch lacks that key. *)
Theorem key_error_names_missing_key e source listings w k w' :
  process_listings e source listings w = (Raise (KeyError k), w') →
  k ∈ mandatory_fields ∧
  ∃ l, l ∈ listings ∧ scalars (heap w l) !! k = None.
Proof.
  unfold process_listings. intros Hrun.
  destruct (ingest e source listings ([], [], []) w)
    as [[[[new upd] ids]|ex'] w1] eqn:Hin.
  - destruct (mark_inactive_properties _ _ _ _ _) as [removed_ids db].
    by destruct (fetch_removed _ _ _ _ _).
  - simplify_eq.
    apply ingest_raise_inv in Hin as (k' & l & Heq & Hk & Hl & Hnone).
    simplify_eq. split; [done|]. by exists l.
Qed.

Lemma key_error_names_missing_key_witness :
  "id" ∈ mandatory_fields ∧
  ∃ l, l ∈ [0%nat; 1%nat] ∧
       scalars (heap Sample.unidentified_then_house l) !! "id" = None.
Proof.
  apply (key_error_names_missing_key Sample.no_fault "X" [0%nat; 1%nat]
           Sample.unidentified_then_house "id"
           (process_listings Sample.no_fault "X" [0%nat; 1%nat]
                             Sample.unidentified_then_house).2).
  vm_compute; reflexivity.
Defined.

(** ** The two result lists *)

Lemma ingest_submseteq e source listings new upd ids w new1 upd1 ids1 w1 :
  ingest e source listings (new, upd, ids) w = (Ok (new1, upd1, ids1), w1) →
  ∃ n u, new1 = new ++ n ∧ upd1 = upd ++ u ∧ n ++ u ⊆+ listings.
Proof.
  revert new upd ids w. induction listings as [|x rest IH];
    intros new upd ids w Hrun; cbn [ingest] in Hrun.
  - simplify_eq. exists [], []. by rewrite !app_nil_r.
  - destruct (process_one e source x (new, upd, ids) w) as [[acc2|ex] w2] eqn:Hone;
      [|by simplify_eq].
    apply process_one_inv in Hone
      as (status & changes & id & _ & _ & _ & _ & Hcase).
    destruct Hcase as [(_ & -> & _)|[(_ & _ & _ & -> & _)|(_ & _ & -> & _)]];
      apply IH in Hrun as (n' & u' & -> & -> & Hsub).
    + exists (x :: n'), u'. rewrite <- !app_assoc. split_and!; [done..|].
      simpl. by apply submseteq_skip.
    + exists n', (x :: u'). rewrite <- !app_assoc. split_and!; [done..|].
      rewrite <- Permutation_middle. by apply submseteq_skip.
    + exists n', u'. split_and!; [done..|]. by apply submseteq_cons.
Qed.

(** X12.  The new and the updated list of a batch together form a
    sub-multiset of the batch: every position of the batch is reported at
    most once, as new or as updated, and nothing else is reported in these
    two lists. *)
Theorem batch_reports_each_listing_once e source listings w :
  ∀ res, (process_listings e source listings w).1 = Ok res →
  res_new res ++ res_updated res ⊆+ listings.
Proof.
  unfold process_listings. intros res Hrun.
  destruct (ingest e source listings ([], [], []) w)
    as [[[[new upd] ids]|ex'] w1] eqn:Hin; [|done].
  apply ingest_submseteq in Hin as (n & u & -> & -> & Hsub).
  destruct (mark_inactive_properties _ _ _ _ _) as [removed_ids db].
  destruct (fetch_removed _ _ _ _ _). simpl in Hrun. by simplify_eq.
Qed.

Lemma batch_reports_each_listing_once_witness :
  [0%nat] ++ [] ⊆+ [0%nat].
Proof.
  apply (batch_reports_each_listing_once Sample.no_fault "X" [0%nat]
           More.first_scrape (mk_result [0%nat] [] [])).
  vm_compute; reflexivity.
Defined.

(** ** The two filters *)

Lemma filter_properties_inv self heap properties filtered :
  PropertyFilter_filter_properties self heap properties = Ok filtered →
  filtered = List.filter (λ p, accepts self (heap p)) properties ∧
  ∀ p, p ∈ properties → ∃ b, matches self (heap p) = Ok b.
Proof.
  revert filtered. induction properties as [|p rest IH]; intros filtered Hrun;
    cbn [PropertyFilter_filter_properties] in Hrun.
  - simplify_eq. split; [done|]. intros p Hp. by apply elem_of_nil in Hp.
  - destruct (matches self (heap p)) as [keep|ex] eqn:Hm; [|done].
    destruct (PropertyFilter_filter_properties self heap rest) as [out|ex];
      [|done].
    destruct (IH out eq_refl) as [-> Hall]. simpl in Hrun. simplify_eq. split.
    + cbn [List.filter].
      assert (accepts self (heap p) = keep) as ->; [|done].
      unfold accepts. rewrite Hm. by destruct keep.
    + intros q Hq. apply elem_of_cons in Hq as [->|Hq]; [by eexists|by apply Hall].
Qed.

Lemma filter_properties_total self heap properties :
  (∀ p, p ∈ properties → ∃ b, matches self (heap p) = Ok b) →
  PropertyFilter_filter_properties self heap properties
  = Ok (List.filter (λ p, accepts self (heap p)) properties).
Proof.
  induction properties as [|p rest IH]; intros Hall; [done|].
  cbn [PropertyFilter_filter_properties List.filter].
  destruct (Hall p) as [b Hb]; [by left|].
  assert (accepts self (heap p) = b) as ->.
  { unfold accepts. rewrite Hb. by destruct b. }
  rewrite Hb, IH by (intros q Hq; apply Hall; by right). done.
Qed.

(** X13.  When [PropertyFilter.filter_properties] returns, every record of
    its argument was judged by [matches] without an exception, the result
    holds the records that [matches] accepted, in the order of the
    argument, and filtering the result again returns it as it is. *)
Theorem filter_properties_selects self heap properties filtered :
  PropertyFilter_filter_properties self heap properties = Ok filtered →
  filtered = List.filter (λ p, accepts self (heap p)) properties ∧
  (∀ p, p ∈ properties → ∃ b, matches self (heap p) = Ok b) ∧
  PropertyFilter_filter_properties self heap filtered = Ok filtered.
Proof.
  intros Hrun. apply filter_properties_inv in Hrun as [-> Hall].
  split_and!; [done..|].
  rewrite filter_properties_total.
  - f_equal. induction properties as [|p rest IH]; [done|].
    cbn [List.filter]. destruct (accepts self (heap p)) eqn:Ha.
    + cbn [List.filter]. rewrite Ha. f_equal. apply IH.
      intros q Hq. apply Hall. by right.
    + apply IH. intros q Hq. apply Hall. by right.
  - intros p Hp. apply Hall. apply list_elem_of_In in Hp.
    apply filter_In in Hp as [Hp _]. by apply list_elem_of_In.
Qed.

Lemma filter_properties_selects_witness :
  [0%nat] = List.filter (λ p, accepts Sample.test_filter ((λ _, Sample.flat) p))
                        [0%nat] ∧
  (∀ p, p ∈ [0%nat] →
        ∃ b, matches Sample.test_filter ((λ _, Sample.flat) p) = Ok b) ∧
  PropertyFilter_filter_properties Sample.test_filter (λ _, Sample.flat) [0%nat]
  = Ok [0%nat].
Proof.
  apply (filter_properties_selects Sample.test_filter (λ _, Sample.flat)
           [0%nat] [0%nat]).
  vm_compute; reflexivity.
Defined.

(** X14.  [from_dict] gives back the filter that [to_dict] was called
    on. *)
Theorem to_dict_from_dict self : from_dict (to_dict self) = Some self.
Proof. by destruct self. Qed.

(** X15.  The filter that [from_dict] builds holds, for each of the five
    keys, the entry of the dictionary, and the default of the constructor
    where the dictionary has none; other entries of the dictionary are not
    read. *)
Theorem from_dict_fills_defaults data self :
  from_dict data = Some self →
  ∀ k, to_dict self !! k
       = (λ d, default d (data !! k))
           <$> to_dict (PropertyFilter_init None None None None None) !! k.
Proof.
  unfold from_dict. intros Hrun k.
  destruct (data !! "min_price") as [[lo|?]|] eqn:H1; simpl in Hrun; try done;
  destruct (data !! "max_price") as [[hi|?]|] eqn:H2; simpl in Hrun; try done;
  destruct (data !! "min_area") as [[a|?]|] eqn:H3; simpl in Hrun; try done;
  destruct (data !! "cities") as [[?|cs]|] eqn:H4; simpl in Hrun; try done;
  destruct (data !! "property_types") as [[?|ts]|] eqn:H5; simpl in Hrun;
    try done; simplify_eq; unfold to_dict, PropertyFilter_init; simpl;
  (destruct (decide (k = "min_price")) as [->|?];
     [by rewrite H1|rewrite !(lookup_insert_ne _ "min_price") by done];
   destruct (decide (k = "max_price")) as [->|?];
     [by rewrite H2|rewrite !(lookup_insert_ne _ "max_price") by done];
   destruct (decide (k = "min_area")) as [->|?];
     [by rewrite H3|rewrite !(lookup_insert_ne _ "min_area") by done];
   destruct (decide (k = "cities")) as [->|?];
     [by rewrite H4|rewrite !(lookup_insert_ne _ "cities") by done];
   destruct (decide (k = "property_types")) as [->|?];
     [by rewrite H5|rewrite !(lookup_insert_ne _ "property_types") by done];
   done).
Qed.

Lemma from_dict_fills_defaults_witness :
  to_dict (mk_filter 150000 10000000 0 ["Rotterdam"] []) !! "max_price"
  = (λ d, default d
            ((list_to_map [ ("min_price", SetInt 150000);
                            ("cities", SetList ["Rotterdam"]);
                            ("note", SetInt 1) ]
              : gmap string setting) !! "max_price"))
      <$> to_dict (PropertyFilter_init None None None None None) !! "max_price".
Proof.
  apply (from_dict_fills_defaults
           (list_to_map [ ("min_price", SetInt 150000);
                          ("cities", SetList ["Rotterdam"]);
                          ("note", SetInt 1) ])
           (mk_filter 150000 10000000 0 ["Rotterdam"] [])).
  vm_compute; reflexivity.
Defined.

Lemma passes_filters_no_criteria filters prop :
  (∀ k, k ∈ criteria_keys → scalars filters !! k = None) →
  passes_filters filters prop = Ok true.
Proof.
  intros Hnone. unfold passes_filters.
  rewrite !Hnone; [done|unfold criteria_keys; repeat constructor..].
Qed.

(** X16.  [ChangeDetector.filter_properties] with criteria that name none
    of the five keys (the empty dictionary, say) returns the list it was
    given, whatever the records hold. *)
Theorem no_criteria_keep_all heap properties filters :
  (∀ k, k ∈ criteria_keys → scalars filters !! k = None) →
  ChangeDetector_filter_properties heap properties filters = Ok properties.
Proof.
  intros Hnone. induction properties as [|p rest IH]; [done|].
  cbn [ChangeDetector_filter_properties].
  by rewrite passes_filters_no_criteria, IH.
Qed.

Lemma no_criteria_keep_all_witness :
  ChangeDetector_filter_properties (λ _, Sample.unidentified) [0%nat; 1%nat]
                                   (mk_dict ∅ None)
  = Ok [0%nat; 1%nat].
Proof.
  apply (no_criteria_keep_all (λ _, Sample.unidentified) [0%nat; 1%nat]
           (mk_dict ∅ None)).
  intros k _. apply lookup_empty.
Defined.

Lemma passes_filters_reads_price filters prop keep :
  passes_filters filters prop = Ok keep →
  is_Some (scalars filters !! "min_price") ∨
  is_Some (scalars filters !! "max_price") →
  is_Some (scalars prop !! "price").
Proof.
  unfold passes_filters, getitem. intros Hrun Hbound.
  destruct (scalars prop !! "price") as [price|]; [by eexists|]. exfalso.
  destruct (scalars filters !! "min_price") as [lo|]; [done|].
  destruct Hbound as [[? ?]|[hi Hhi]]; [done|]. by rewrite Hhi in Hrun.
Qed.

(** X17.  The result of [ChangeDetector.filter_properties] is a sublist of
    its argument, and when the criteria bound the price from either side
    the call returns only if every record of the argument has a price: a
    record without one raises [KeyError]. *)
Theorem price_criterion_reads_price heap properties filters filtered :
  ChangeDetector_filter_properties heap properties filters = Ok filtered →
  filtered `sublist_of` properties ∧
  (is_Some (scalars filters !! "min_price") ∨
   is_Some (scalars filters !! "max_price") →
   ∀ p, p ∈ properties → is_Some (scalars (heap p) !! "price")).
Proof.
  revert filtered. induction properties as [|p rest IH]; intros filtered Hrun;
    cbn [ChangeDetector_filter_properties] in Hrun.
  - simplify_eq. split; [done|]. intros _ p Hp. by apply elem_of_nil in Hp.
  - destruct (passes_filters filters (heap p)) as [keep|ex] eqn:Hp; [|done].
    destruct (ChangeDetector_filter_properties heap rest filters) as [out|ex];
      [|done].
    destruct (IH out eq_refl) as [Hsub Hprice]. simpl in Hrun. simplify_eq.
    split.
    + destruct keep; [by apply sublist_skip|by apply sublist_cons].
    + intros Hbound q Hq. apply elem_of_cons in Hq as [->|Hq].
      * by eapply passes_filters_reads_price.
      * by apply Hprice.
Qed.

Lemma price_criterion_reads_price_witness :
  [0%nat] `sublist_of` [0%nat] ∧
  (is_Some (scalars (criteria 100000 225000 50 "Rotterdam" "Appartement")
              !! "min_price") ∨
   is_Some (scalars (criteria 100000 225000 50 "Rotterdam" "Appartement")
              !! "max_price") →
   ∀ p, p ∈ [0%nat] → is_Some (scalars ((λ _, Sample.flat) p) !! "price")).
Proof.
  apply (price_criterion_reads_price (λ _, Sample.flat) [0%nat]
           (criteria 100000 225000 50 "Rotterdam" "Appartement") [0%nat]).
  vm_compute; reflexivity.
Defined.

Lemma criteria_lookup lo hi area city property_type :
  let c := scalars (criteria lo hi area city property_type) in
  c !! "min_price" = Some (SInt lo) ∧ c !! "max_price" = Some (SInt hi) ∧
  c !! "city" = Some (SStr city) ∧ c !! "min_area" = Some (SInt area) ∧
  c !! "property_type" = Some (SStr property_type).
Proof. by split_and!. Qed.

Lemma passes_filters_matches lo hi area city property_type prop :
  filterable prop →
  passes_filters (criteria lo hi area city property_type) prop
  = matches (mk_filter lo hi area [city] [property_type]) prop.
Proof.
  intros ([price Hprice] & [s Hcity] & Harea).
  destruct (criteria_lookup lo hi area city property_type)
    as (H1 & H2 & H3 & H4 & H5).
  assert (∃ a, get prop "area" (SInt 0) = SInt a) as [a Ha].
  { unfold get. destruct Harea as [->|[m ->]]; by eexists. }
  assert (get prop "price" (SInt 0) = price) as Hp by (unfold get; by rewrite Hprice).
  assert (get prop "city" (SStr "") = SStr s) as Hc by (unfold get; by rewrite Hcity).
  unfold passes_filters, matches. rewrite H1, H2, H3, H4, H5, Ha, Hp, Hc.
  unfold getitem. rewrite Hprice, Hcity.
  destruct price as [|n|t]; simpl; [done| |done].
  destruct (n <? lo) eqn:Hlo; simpl; [done|].
  rewrite Z.gtb_ltb. destruct (hi <? n) eqn:Hhi; simpl; [done|].
  rewrite orb_false_r.
  destruct (str_in (lower city) (lower s)); simpl.
  - destruct (a <? area); simpl; [done|].
    case_bool_decide as Ht; case_bool_decide as Ht'; try done.
    + exfalso. apply Ht'. rewrite <- Ht. by left.
    + exfalso. apply Ht. apply elem_of_cons in Ht' as [->|Ht']; [done|].
      by apply elem_of_nil in Ht'.
  - by destruct (a <? area).
Qed.

(** X18.  The two filters agree.  On records that have a price, a text
    city and no area or an integer one, [ChangeDetector.filter_properties]
    with criteria that name all five keys returns what
    [PropertyFilter.filter_properties] returns for the filter with the same
    bounds, that one city and that one property type, or raises the same
    exception. *)
Theorem filters_agree heap properties lo hi area city property_type :
  (∀ p, p ∈ properties → filterable (heap p)) →
  ChangeDetector_filter_properties heap properties
    (criteria lo hi area city property_type)
  = PropertyFilter_filter_properties
      (mk_filter lo hi area [city] [property_type]) heap properties.
Proof.
  induction properties as [|p rest IH]; intros Hall; [done|].
  cbn [ChangeDetector_filter_properties PropertyFilter_filter_properties].
  rewrite passes_filters_matches by (apply Hall; by left).
  rewrite IH by (intros q Hq; apply Hall; by right). done.
Qed.

Lemma filters_agree_witness :
  ChangeDetector_filter_properties (λ _, Sample.flat) [0%nat]
    (criteria 100000 225000 50 "Rotterdam" "Appartement")
  = PropertyFilter_filter_properties
      (mk_filter 100000 225000 50 ["Rotterdam"] ["Appartement"])
      (λ _, Sample.flat) [0%nat].
Proof.
  apply (filters_agree (λ _, Sample.flat) [0%nat]).
  intros p _. unfold filterable. split_and!.
  - by eexists.
  - by eexists.
  - right. by eexists.
Defined.

(** ** Standardised listings *)

Lemma standardize_listing_lookup name timestamp scraped_at listing k :
  scalars (standardize_listing name timestamp scraped_at listing) !! k
  = if bool_decide (k = "source") then Some (SStr name)
    else if bool_decide (k = "scraped_at") then Some (SStr scraped_at)
    else match scalars listing !! k with
         | Some v => Some v
         | None =>
           (list_to_map
              [ ("id", SStr (name +:+ "_" +:+ timestamp));
                ("address", SStr "Onbekend adres");
                ("city", SStr "Onbekende plaats");
                ("price", SInt 0); ("area", SInt 0); ("rooms", SInt 0);
                ("property_type", SStr "Onbekend"); ("url", SStr "") ]
            : gmap string scalar) !! k
         end.
Proof.
  unfold standardize_listing, get. cbn [scalars list_to_map foldr uncurry fst snd].
  rewrite lookup_union.
  destruct (decide (k = "id")) as [->|?].
  { rewrite lookup_insert_eq. rewrite !bool_decide_eq_false_2 by done.
    rewrite lookup_insert_eq. by destruct (scalars listing !! "id"). }
  rewrite !(lookup_insert_ne _ "id") by done.
  destruct (decide (k = "address")) as [->|?].
  { rewrite lookup_insert_eq. rewrite !bool_decide_eq_false_2 by done.
    rewrite lookup_insert_eq. by destruct (scalars listing !! "address"). }
  rewrite !(lookup_insert_ne _ "address") by done.
  destruct (decide (k = "city")) as [->|?].
  { rewrite lookup_insert_eq. rewrite !bool_decide_eq_false_2 by done.
    rewrite lookup_insert_eq. by destruct (scalars listing !! "city"). }
  rewrite !(lookup_insert_ne _ "city") by done.
  destruct (decide (k = "price")) as [->|?].
  { rewrite lookup_insert_eq. rewrite !bool_decide_eq_false_2 by done.
    rewrite lookup_insert_eq. by destruct (scalars listing !! "price"). }
  rewrite !(lookup_insert_ne _ "price") by done.
  destruct (decide (k = "area")) as [->|?].
  { rewrite lookup_insert_eq. rewrite !bool_decide_eq_false_2 by done.
    rewrite lookup_insert_eq. by destruct (scalars listing !! "area"). }
  rewrite !(lookup_insert_ne _ "area") by done.
  destruct (decide (k = "rooms")) as [->|?].
  { rewrite lookup_insert_eq. rewrite !bool_decide_eq_false_2 by done.
    rewrite lookup_insert_eq. by destruct (scalars listing !! "rooms"). }
  rewrite !(lookup_insert_ne _ "rooms") by done.
  destruct (decide (k = "property_type")) as [->|?].
  { rewrite lookup_insert_eq. rewrite !bool_decide_eq_false_2 by done.
    rewrite lookup_insert_eq. by destruct (scalars listing !! "property_type"). }
  rewrite !(lookup_insert_ne _ "property_type") by done.
  destruct (decide (k = "url")) as [->|?].
  { rewrite lookup_insert_eq. rewrite !bool_decide_eq_false_2 by done.
    rewrite lookup_insert_eq. by destruct (scalars listing !! "url"). }
  rewrite !(lookup_insert_ne _ "url") by done.
  destruct (decide (k = "source")) as [->|?].
  { rewrite lookup_insert_eq, bool_decide_eq_true_2 by done.
    by destruct (scalars listing !! "source"). }
  rewrite !(lookup_insert_ne _ "source") by done.
  rewrite (bool_decide_eq_false_2 (k = "source")) by done.
  destruct (decide (k = "scraped_at")) as [->|?].
  { rewrite lookup_insert_eq, bool_decide_eq_true_2 by done.
    by destruct (scalars listing !! "scraped_at"). }
  rewrite !(lookup_insert_ne _ "scraped_at") by done.
  rewrite (bool_decide_eq_false_2 (k = "scraped_at")) by done.
  rewrite !lookup_empty. simpl. by destruct (scalars listing !! k).
Qed.

Lemma standardize_listing_mandatory name timestamp scraped_at listing k :
  k ∈ mandatory_fields →
  is_Some (scalars (standardize_listing name timestamp scraped_at listing) !! k).
Proof.
  intros Hk. rewrite standardize_listing_lookup. unfold mandatory_fields in Hk.
  repeat (apply elem_of_cons in Hk as [->|Hk];
          [rewrite !bool_decide_eq_false_2 by done;
           by destruct (scalars listing !! _)|]).
  by apply elem_of_nil in Hk.
Qed.

(** X19.  [standardize_listing] keeps every entry of the raw listing but
    those under ['source'] and ['scraped_at'], which it sets to the
    scraper's name and to the time of the call whatever the raw listing
    says; it leaves a raw ['changes'] entry in place, and its result has
    all five mandatory keys. *)
Theorem standardize_listing_keeps_entries name timestamp scraped_at listing :
  let standard := standardize_listing name timestamp scraped_at listing in
  (∀ k v, k ≠ "source" → k ≠ "scraped_at" →
          scalars listing !! k = Some v → scalars standard !! k = Some v) ∧
  scalars standard !! "source" = Some (SStr name) ∧
  scalars standard !! "scraped_at" = Some (SStr scraped_at) ∧
  changes_entry standard = changes_entry listing ∧
  (∀ k, k ∈ mandatory_fields → is_Some (scalars standard !! k)).
Proof.
  intros standard. subst standard. split_and!.
  - intros k v Hs Ha Hk. rewrite standardize_listing_lookup, Hk.
    by rewrite !bool_decide_eq_false_2.
  - by rewrite standardize_listing_lookup.
  - by rewrite standardize_listing_lookup.
  - done.
  - intros k. apply standardize_listing_mandatory.
Qed.

(** X20.  A batch of listings that came out of [standardize_listing]
    raises no [KeyError]: the abort of [process_listings] on a snapshot
    that lacks a mandatory key cannot happen to standardized listings,
    whatever the raw listings held. *)
Theorem standardized_batch_raises_no_key_error e source listings w k :
  (∀ l, l ∈ listings →
        ∃ name timestamp scraped_at raw,
          heap w l = standardize_listing name timestamp scraped_at raw) →
  (process_listings e source listings w).1 ≠ Raise (KeyError k).
Proof.
  intros Hstd Hraise. unfold process_listings in Hraise.
  destruct (ingest e source listings ([], [], []) w)
    as [[[[new upd] ids]|ex] w1] eqn:Hin.
  - destruct (mark_inactive_properties _ _ _ _ _) as [removed_ids db].
    by destruct (fetch_removed _ _ _ _ _).
  - apply ingest_raise_inv in Hin as (k' & l & _ & Hk & Hl & Hnone).
    destruct (Hstd l Hl) as (name & ts & at' & raw & Heq).
    rewrite Heq in Hnone.
    pose proof (standardize_listing_mandatory name ts at' raw k' Hk) as [v Hv].
    congruence.
Qed.

Lemma standardized_batch_raises_no_key_error_witness :
  (process_listings Sample.first_call_fails "X" [0%nat; 1%nat]
     (mk_world (λ _, standardize_listing "X" "1700000000.0"
                                         "2023-11-14T22:13:20"
                                         Sample.unidentified)
               empty_db 0)).1 ≠ Raise (KeyError "id").
Proof.
  apply (standardized_batch_raises_no_key_error Sample.first_call_fails "X"
           [0%nat; 1%nat]).
  intros l _. simpl. by eexists _, _, _, _.
Defined.

(** ** The scraper job *)

(** X21.  A stored listing that the filter no longer accepts is reported
    as removed.  In the turn of a scraper that completes (the filter
    returns and the batch of the listings it accepted returns) with no
    fault in the store calls, a record of that scraper that was active,
    with a text identifier that is not empty, and whose listing the filter
    rejects is inactive afterwards and counted among the removed
    properties.  The listings have text identifiers. *)
Theorem filtered_out_listing_counts_as_removed
    e property_filter name listings filtered res w1 t w r id :
  (∀ n, faulty e n = false) →
  PropertyFilter_filter_properties property_filter (heap w) listings
    = Ok filtered →
  process_listings e name filtered w = (Ok res, w1) →
  r ∈ properties (store w) →
  r_source r = SStr name → r_active r = true →
  r_id r = SStr id → id ≠ "" →
  (∀ l, l ∈ listings →
        ∃ id', scalars (heap w l) !! "id" = Some (SStr id') ∧
               (id' = id → matches property_filter (heap w l) = Ok false)) →
  let out := run_scraper e property_filter name (Ok listings) t w in
  (∀ r', r' ∈ properties (store out.2) → r_id r' = SStr id →
         r_active r' = false) ∧
  (total_removed t < total_removed out.1)%nat.
Proof.
  intros Hnf Hfilter Hbatch Hr Hsrc Hact Hid Hempty Hall out. subst out.
  unfold run_scraper. cbn [mbind outcome_bind]. rewrite Hfilter, Hbatch.
  cbn [fst snd total_removed].
  apply filter_properties_inv in Hfilter as [-> _].
  destruct (unseen_entity_removed e name _ w res w1 r Hnf Hbatch Hr Hsrc Hact)
    as (Hinactive & r' & _ & _ & Hrem).
  - by rewrite Hid.
  - intros l Hl. apply list_elem_of_In, filter_In in Hl as [Hl Ha].
    apply list_elem_of_In in Hl.
    destruct (Hall l Hl) as (id' & Hi & Hrej). rewrite Hid, Hi.
    split; [|done]. intros [= ->].
    unfold accepts in Ha. by rewrite Hrej in Ha.
  - intros _. rewrite Hid. intros [= Heq]. by apply Hempty.
  - split.
    + intros r0 Hr0 Heq. apply Hinactive; [done|]. by rewrite Hid.
    + destruct (res_removed res); [by apply elem_of_nil in Hrem|].
      simpl. lia.
Qed.

Lemma filtered_out_listing_counts_as_removed_witness :
  let out := run_scraper Sample.no_fault Sample.test_filter "test_source"
                         (Ok [0%nat]) (mk_totals 0 0 0) More.house_priced_out in
  (∀ r', r' ∈ properties (store out.2) → r_id r' = SStr "test_property_2" →
         r_active r' = false) ∧
  (total_removed (mk_totals 0 0 0) < total_removed out.1)%nat.
Proof.
  apply (filtered_out_listing_counts_as_removed Sample.no_fault
           Sample.test_filter "test_source" [0%nat] []
           (mk_result [] [] [existing_data Sample.house_gone_row])
           (process_listings Sample.no_fault "test_source" []
                             More.house_priced_out).2
           (mk_totals 0 0 0) More.house_priced_out Sample.house_row
           "test_property_2").
  - done.
  - vm_compute; reflexivity.
  - vm_compute; reflexivity.
  - vm_compute. left.
  - reflexivity.
  - reflexivity.
  - reflexivity.
  - discriminate.
  - intros l _. exists "test_property_2".
    split; [vm_compute; reflexivity|]. intros _. vm_compute; reflexivity.
Defined.

Lemma run_scrapers_store_invariant (P : database → Prop)
    e property_filter scrapers t w :
  (∀ source listings w0 out w1,
     process_listings e source listings w0 = (out, w1) →
     P (store w0) → P (store w1)) →
  P (store w) → P (store (run_scrapers e property_filter scrapers t w).2).
Proof.
  intros Hbatch. revert t w.
  induction scrapers as [|[name listings] rest IH]; intros t w HP; [done|].
  cbn [run_scrapers].
  destruct (run_scraper e property_filter name listings t w) as [t1 w1] eqn:Hone.
  apply IH. unfold run_scraper in Hone.
  destruct (listings ≫= _) as [filtered|ex]; [|by simplify_eq].
  destruct (process_listings e name filtered w) as [[changes|ex] w2] eqn:Hrun;
    simplify_eq; by eapply Hbatch.
Qed.

(** X22.  A scraper job keeps the store sound, whichever of its scrapers
    raise: when the constraints of the schema hold before
    [run_scraper_job], they hold after it, and the history before the job
    is a prefix of the history after it. *)
Theorem run_scraper_job_keeps_store_sound e property_filter scrapers w :
  constraints_hold (store w) →
  let w' := (run_scraper_job e property_filter scrapers w).2 in
  constraints_hold (store w') ∧
  property_history (store w) `prefix_of` property_history (store w').
Proof.
  intros Hc w'. subst w'. unfold run_scraper_job.
  apply (run_scrapers_store_invariant
           (λ db, constraints_hold db ∧
                  property_history (store w) `prefix_of` property_history db));
    [|done].
  intros source listings w0 out w1 Hrun [H1 H2]. split.
  - revert Hrun H1. apply (process_listings_store_invariant constraints_hold).
    + intros. by eapply upsert_constraints.
    + intros. by eapply sweep_constraints.
  - etrans; [exact H2|]. clear H1 H2. revert Hrun.
    intros Hrun.
    pose proof (process_listings_store_invariant
             (λ db, property_history (store w0) `prefix_of` property_history db)
             e source listings w0 out w1) as Hinv.
    apply Hinv; [| |done|done].
    + intros now fault db pd r db' Hup Hp.
      apply upsert_appends in Hup as [H3 _]. by etrans.
    + intros now fault db ids src removed db' Hs Hp.
      apply sweep_appends in Hs as [H3 _]. by etrans.
Qed.

Lemma run_scraper_job_keeps_store_sound_witness :
  let w' := (run_scraper_job Sample.no_fault Sample.test_filter
               [("bad", Raise TypeError); ("X", Ok [0%nat]);
                ("test_source", Ok [1%nat])]
               Sample.unidentified_then_house).2 in
  constraints_hold (store w') ∧
  property_history (store Sample.unidentified_then_house)
    `prefix_of` property_history (store w').
Proof.
  apply (run_scraper_job_keeps_store_sound Sample.no_fault Sample.test_filter
           [("bad", Raise TypeError); ("X", Ok [0%nat]);
            ("test_source", Ok [1%nat])]
           Sample.unidentified_then_house).
  apply constraints_hold_empty.
Defined.

(** ** Reactivation of an entity *)

Lemma ingest_select_other e source listings acc w acc1 w1 other :
  ingest e source listings acc w = (Ok acc1, w1) →
  (∀ l, l ∈ listings → scalars (heap w l) !! "id" ≠ Some other) →
  select_by_id (store w1) other = select_by_id (store w) other.
Proof.
  revert acc w. induction listings as [|x rest IH]; intros acc w Hrun Hids;
    cbn [ingest] in Hrun; [by simplify_eq|].
  destruct (process_one e source x acc w) as [[acc2|ex] w2] eqn:Hone;
    [|by simplify_eq].
  rewrite (IH _ _ Hrun).
  - apply process_one_store in Hone as (out & Hup & _).
    eapply upsert_select_other; [exact Hup|].
    unfold setitem; simpl. rewrite lookup_insert_ne by done.
    apply Hids. by left.
  - intros l Hl. rewrite (process_one_scalars _ _ _ _ _ _ _ l "id" Hone) by done.
    apply Hids. by right.
Qed.

(** C5.  An entity that is stored and inactive, and of which a batch
    holds one snapshot, with core fields that all equal the stored values:
    the upsert of that snapshot returns [unchanged], the entity is active
    when the batch is done, and no listing of the new or of the updated
    list carries its identifier.  Identifiers are text, as the interface
    has them, and the other snapshots of the batch are snapshots of other
    entities. *)
Theorem reactivation_is_unchanged
    e source pre listing post w id row res w' :
  scalars (heap w listing) !! "id" = Some (SStr id) →
  (∀ l, l ∈ pre ++ post →
        ∃ id', scalars (heap w l) !! "id" = Some (SStr id') ∧ id' ≠ id) →
  select_by_id (store w) (SStr id) = Some row →
  r_active row = false →
  (∀ f v, f ∈ core_fields → scalars (heap w listing) !! f = Some v →
          scalars (existing_data row) !! f = Some v) →
  faulty e (calls w + length pre)%nat = false →
  process_listings e source (pre ++ listing :: post) w = (Ok res, w') →
  (∃ acc1 w1,
     ingest e source pre ([], [], []) w = (Ok acc1, w1) ∧
     (add_or_update_property (clock e (calls w1)) (faulty e (calls w1))
        (store w1) (setitem (heap w1 listing) "source" (SStr source))).1
     = Ok ("unchanged", [])) ∧
  (r_active <$> select_by_id (store w') (SStr id)) = Some true ∧
  (∀ l, l ∈ res_new res ++ res_updated res →
        scalars (heap w' l) !! "id" ≠ Some (SStr id)).
Proof.
  intros Hid Hothers Hsel Hinactive Hsame Hfault Hrun.
  assert (∀ l, l ∈ pre ++ post → scalars (heap w l) !! "id" ≠ Some (SStr id))
    as Hne.
  { intros l Hl. destruct (Hothers l Hl) as (id' & -> & Hid'). congruence. }
  assert ((listing ∉ pre) ∧ (listing ∉ post)) as [Hnpre Hnpost].
  { split; intros Hin; apply (Hne listing); try done;
      apply elem_of_app; auto. }
  destruct (ingest e source pre ([], [], []) w) as [[acc1|ex] w1] eqn:Hpre.
  2:{ unfold process_listings in Hrun. rewrite ingest_app, Hpre in Hrun.
      by simplify_eq. }
  assert (select_by_id (store w1) (SStr id) = Some row) as Hsel1.
  { rewrite <- Hsel. eapply ingest_select_other; [exact Hpre|].
    intros l Hl. apply Hne, elem_of_app. by left. }
  assert (faulty e (calls w1) = false) as Hfault1.
  { by rewrite (ingest_calls _ _ _ _ _ _ _ Hpre). }
  destruct (reactivated_listing e source pre listing post w acc1 w1 (SStr id)
              row res w' Hpre Hid Hsel1 Hinactive Hsame Hfault1 Hnpre Hnpost Hrun)
    as (Hun & Hact & Hnew & Hupd).
  split_and!; [by eexists _, _|done|].
  intros l Hl.
  assert (l ∈ pre ++ listing :: post ∧
          scalars (heap w' l) !! "id" = scalars (heap w l) !! "id") as [Hin Heq].
  { unfold process_listings in Hrun.
    destruct (ingest e source (pre ++ listing :: post) ([], [], []) w)
      as [[[[new upd] seen]|ex] w2] eqn:Hall; [|by simplify_eq].
    destruct (mark_inactive_properties _ _ _ _ _) as [removed db].
    destruct (fetch_removed _ _ _ _ _) as [removed_properties n].
    simplify_eq. simpl in *. split.
    - apply ingest_submseteq in Hall as (n' & u' & -> & -> & Hsub).
      simpl in Hl. eapply elem_of_submseteq; [exact Hl|exact Hsub].
    - by eapply ingest_scalars. }
  rewrite Heq.
  apply elem_of_app in Hin as [Hin|Hin].
  - apply Hne, elem_of_app. by left.
  - apply elem_of_cons in Hin as [->|Hin].
    + apply elem_of_app in Hl as [Hl|Hl]; done.
    + apply Hne, elem_of_app. by right.
Qed.

Lemma reactivation_is_unchanged_witness :
  let e := Sample.no_fault_at "t2" in
  let w := More.flat_and_house_back in
  let r := process_listings e "test_source" ([1%nat] ++ 0%nat :: []) w in
  (∃ acc1 w1,
     ingest e "test_source" [1%nat] ([], [], []) w = (Ok acc1, w1) ∧
     (add_or_update_property (clock e (calls w1)) (faulty e (calls w1))
        (store w1) (setitem (heap w1 0%nat) "source" (SStr "test_source"))).1
     = Ok ("unchanged", [])) ∧
  (r_active <$> select_by_id (store r.2) (SStr "test_property_2")) = Some true ∧
  (∀ l, l ∈ res_new (mk_result [1%nat] [] [])
            ++ res_updated (mk_result [1%nat] [] []) →
        scalars (heap r.2 l) !! "id" ≠ Some (SStr "test_property_2")).
Proof.
  apply (reactivation_is_unchanged (Sample.no_fault_at "t2") "test_source"
           [1%nat] 0%nat [] More.flat_and_house_back "test_property_2"
           Sample.house_gone_row (mk_result [1%nat] [] [])).
  - vm_compute; reflexivity.
  - intros l Hl. apply list_elem_of_singleton in Hl as ->.
    exists "test_property_3". split; [vm_compute; reflexivity|discriminate].
  - vm_compute; reflexivity.
  - reflexivity.
  - intros f v Hf Hv. unfold core_fields in Hf.
    repeat (apply elem_of_cons in Hf as [->|Hf]);
      try (vm_compute in Hv; injection Hv as <-; vm_compute; reflexivity).
    by apply elem_of_nil in Hf.
  - reflexivity.
  - vm_compute; reflexivity.
Defined.
